(** * Tanielu Family Story: the photo/user access layer of [app.py]

    A shallow embedding of the data-access functions and of the three
    Streamlit handlers that use them (Sign Up, Upload Photo, Timeline),
    followed by the properties of the access layer.

    Conventions of the embedding.
    - Python [str] values are [string]s, one [ascii] per character.
    - Python [int] values are [Z].
    - The SQLite file is a value of type [DB]: the two tables in rowid
      order and the AUTOINCREMENT counters of [sqlite_sequence].
    - [CURRENT_TIMESTAMP] is read from the environment: every function that
      inserts a row takes the clock reading [now] (SQLite's text form
      ['YYYY-MM-DD HH:MM:SS'], one-second resolution) as an argument.
    - A Python exception is the [Raised] case of [Outcome].
    - [hashlib], [PIL] and [base64] are external: their functions are
      variables of the section [App]. *)

From Stdlib Require Import List String Ascii ZArith Bool Lia Permutation Sorted.
From Stdlib Require Import DecimalString DecimalZ.
Import ListNotations.

Local Open Scope string_scope.
Local Open Scope Z_scope.

(** ** Python values and exceptions *)

Inductive PyExc : Type :=
| IntegrityError          (* sqlite3.IntegrityError *)
| ValueError              (* int() on a malformed literal *)
| TypeError               (* subscripting None *)
| UnidentifiedImageError  (* PIL.Image.open *)
| OSError                 (* PIL.Image.save *)
| BinasciiError           (* base64.b64decode *)
| OperationalError.       (* sqlite3.OperationalError: database is locked *)

Inductive Outcome (A : Type) : Type :=
| Returned (a : A)
| Raised (e : PyExc).

Arguments Returned {A} a.
Arguments Raised {A} e.

Definition bind {A B} (m : Outcome A) (k : A -> Outcome B) : Outcome B :=
  match m with
  | Returned a => k a
  | Raised e => Raised e
  end.

Notation "x <- m ;; k" := (bind m (fun x => k))
  (at level 61, m at next level, right associativity).

(** [bool(s)] for a string: the empty string is falsy. *)
Definition truthy (s : string) : bool :=
  match s with
  | EmptyString => false
  | String _ _ => true
  end.

(** ** [str.join], [str.split], [str.strip], [str(int)], [int(str)] *)

Definition comma : ascii := ","%char.

(** [sep.join(parts)] *)
Definition join (sep : string) (parts : list string) : string :=
  String.concat sep parts.

(** [s.split(sep)] for a one-character separator: never returns the empty
    list; ["".split(",")] is [[""]]. *)
Fixpoint split (sep : ascii) (s : string) : list string :=
  match s with
  | EmptyString => [EmptyString]
  | String c s' =>
      if Ascii.eqb c sep then EmptyString :: split sep s'
      else match split sep s' with
           | [] => [String c EmptyString]
           | w :: ws => String c w :: ws
           end
  end.

(** The characters [str.strip()] removes, among the first 256 code points. *)
Definition isspace (c : ascii) : bool :=
  let n := N_of_ascii c in
  (((9 <=? n) && (n <=? 13)) || ((28 <=? n) && (n <=? 32))
   || (n =? 133) || (n =? 160))%N.

Fixpoint lstrip (s : string) : string :=
  match s with
  | EmptyString => EmptyString
  | String c s' => if isspace c then lstrip s' else s
  end.

(** Drops trailing blanks: a character is kept when it is not a blank or
    when something is kept after it. *)
Fixpoint rstrip (s : string) : string :=
  match s with
  | EmptyString => EmptyString
  | String c s' =>
      match rstrip s' with
      | EmptyString => if isspace c then EmptyString else String c EmptyString
      | r => String c r
      end
  end.

Definition strip (s : string) : string := rstrip (lstrip s).

(** [str(n)]: the decimal numeral, with a leading minus for negatives. *)
Definition py_str (n : Z) : string := NilZero.string_of_int (Z.to_int n).

(** [int(s)], on the numerals [str] writes (an optional minus, then one or
    more decimal digits); anything else is a [ValueError] here.  Python also
    accepts surrounding blanks, a plus sign and underscores between digits;
    no row written by [save_photo] contains such a numeral. *)
Definition py_int (s : string) : Outcome Z :=
  match NilZero.int_of_string s with
  | Some d => Returned (Z.of_int d)
  | None => Raised ValueError
  end.

(** ** The database *)

(** A row of [users]; the fields are named as the code unpacks them. *)
Record User : Type := mkUser {
  uid : Z;
  email : string;
  password : string;
  role : string;
  user_created_at : string
}.

(** A row of [photos], in column order, named as the Timeline loop unpacks
    it: [pid, title, desc, date, loc, people_str, tags_str, uploader_id,
    image_data, created_at]. *)
Record Photo : Type := mkPhoto {
  pid : Z;
  title : string;
  desc : string;
  date : string;
  loc : string;
  people_str : string;
  tags_str : string;
  uploader_id : Z;
  image_data : string;
  created_at : string
}.

(** The file [tanielu_family_story.db]: both tables in rowid order (oldest
    row first) and, per table, the largest rowid handed out so far. *)
Record DB : Type := mkDB {
  users : list User;
  users_seq : Z;
  photos : list Photo;
  photos_seq : Z
}.

(** The file before [init_db] has ever run. *)
Definition empty_db : DB := mkDB [] 0 [] 0.

(** [INSERT INTO users (email, password, role) VALUES (?, ?, ?)].
    [email TEXT UNIQUE NOT NULL]: a second row with the same email violates
    the constraint, the statement is rolled back and [IntegrityError] is
    raised.  Otherwise the row gets the next AUTOINCREMENT id. *)
Definition insert_user (now e pw r : string) (db : DB) : Outcome DB :=
  if existsb (fun u => String.eqb (email u) e) (users db)
  then Raised IntegrityError
  else
    let i := users_seq db + 1 in
    Returned (mkDB (users db ++ [mkUser i e pw r now]) i
                   (photos db) (photos_seq db)).

(** [INSERT INTO photos (title, ..., image_data) VALUES (...)]: no
    constraint can fail ([FOREIGN KEY] is not enforced without the pragma).
    This is the INSERT for values the store keeps as they are given: an
    uploader id in the signed 64-bit range ([fits_int64]; the binding
    raises [OverflowError] outside it) and a date that the [DATE] column
    keeps as text ([iso_date]; a numeral would be stored as a number).
    The properties of saving carry the two conditions as hypotheses. *)
Definition insert_photo (now t d dt l ps ts : string) (u : Z) (img : string)
    (db : DB) : DB :=
  let i := photos_seq db + 1 in
  mkDB (users db) (users_seq db)
       (photos db ++ [mkPhoto i t d dt l ps ts u img now]) i.

(** ** [ORDER BY date DESC, created_at DESC] *)

(** Both columns hold text, compared by the BINARY collation: character by
    character, a proper prefix first.  (The columns are declared [DATE] and
    [TIMESTAMP], which SQLite gives NUMERIC affinity; what the application
    stores there, [str(date)] = ['YYYY-MM-DD'] and the text of
    [CURRENT_TIMESTAMP], is never a numeral and stays text.)
    [listed_before a b]: row [a] may stand before row [b] in the result,
    its key being at least [b]'s. *)
Definition listed_before (a b : Photo) : bool :=
  match String.compare (date a) (date b) with
  | Gt => true
  | Lt => false
  | Eq => String.leb (created_at b) (created_at a)
  end.

(** The sorter receives the rows in rowid order and keeps rows that are
    equal on both keys in that order (SQLite's merge of sorted runs takes
    the earlier-scanned row on a tie). *)
Fixpoint sorter_insert (x : Photo) (l : list Photo) : list Photo :=
  match l with
  | [] => [x]
  | y :: l' => if listed_before x y then x :: l else y :: sorter_insert x l'
  end.

Definition order_by_date_created (rows : list Photo) : list Photo :=
  fold_right sorter_insert [] rows.

(** ** [LIKE] *)

(** Upper-case ASCII letters are folded; every other character is kept. *)
Definition tolower (c : ascii) : ascii :=
  let n := N_of_ascii c in
  if ((65 <=? n) && (n <=? 90))%N then ascii_of_N (n + 32) else c.

Definition eq_nocase (c1 c2 : ascii) : bool :=
  Ascii.eqb (tolower c1) (tolower c2).

(** [like pat s] is SQLite's [s LIKE pat] without an ESCAPE clause: [%]
    matches any run of characters, [_] exactly one character, any other
    character itself up to ASCII case. *)
Fixpoint like (pat s : string) : bool :=
  match pat with
  | EmptyString =>
      match s with EmptyString => true | String _ _ => false end
  | String c pat' =>
      if Ascii.eqb c "%" then
        (fix any_suffix (s : string) : bool :=
           like pat' s
           || match s with
              | EmptyString => false
              | String _ s' => any_suffix s'
              end) s
      else
        match s with
        | EmptyString => false
        | String c2 s' =>
            (Ascii.eqb c "_" || eq_nocase c c2) && like pat' s'
        end
  end.

(** ** The access layer *)

(** [get_all_users]: [SELECT id, email, role FROM users]. *)
Definition get_all_users (db : DB) : list (Z * string * string) :=
  map (fun u => (uid u, email u, role u)) (users db).

(** [save_photo]: the two lists are comma-joined (the empty list gives the
    empty string), the row is inserted and committed.  The function has no
    [return]: the caller receives [None]. *)
Definition people_str_of (people : list Z) : string :=
  match people with [] => "" | _ => join "," (map py_str people) end.

Definition tags_str_of (tags : list string) : string :=
  match tags with [] => "" | _ => join "," tags end.

Definition save_photo (now title desc date loc : string) (people : list Z)
    (tags : list string) (uploader_id : Z) (image_data : string) (db : DB)
  : DB * option Z :=
  let people_str := people_str_of people in
  let tags_str := tags_str_of tags in
  (insert_photo now title desc date loc people_str tags_str uploader_id
                image_data db,
   None).

(** [get_all_photos]: [SELECT * FROM photos ORDER BY date DESC,
    created_at DESC]. *)
Definition get_all_photos (db : DB) : list Photo :=
  order_by_date_created (photos db).

(** The [WHERE] clause of [search_photos]. *)
Definition matches (like_query : string) (p : Photo) : bool :=
  like like_query (title p) || like like_query (desc p)
  || like like_query (loc p) || like like_query (tags_str p)
  || like like_query (people_str p).

(** [search_photos]: the query is put between two [%] unescaped. *)
Definition search_photos (query : string) (db : DB) : list Photo :=
  let like_query := "%" ++ query ++ "%" in
  order_by_date_created (filter (matches like_query) (photos db)).

(** [get_user_by_id]: [fetchone()] is the first row found, or [None].
    This is the query for an id the binding accepts ([fits_int64], as
    every id of a stored user is); outside the signed 64-bit range
    [c.execute] raises [OverflowError] instead. *)
Definition get_user_by_id (user_id : Z) (db : DB) : option (string * string) :=
  match filter (fun u => uid u =? user_id) (users db) with
  | [] => None
  | u :: _ => Some (email u, role u)
  end.

(** [get_family_role_map]: a dict keeps its keys in first-insertion order. *)
Fixpoint role_map_add (r e : string) (m : list (string * list string))
  : list (string * list string) :=
  match m with
  | [] => [(r, [e])]
  | (r', es) :: m' =>
      if String.eqb r' r then (r', (es ++ [e])%list) :: m'
      else (r', es) :: role_map_add r e m'
  end.

Definition get_family_role_map (db : DB) : list (string * list string) :=
  fold_left (fun m u => let '(_, e, r) := u in role_map_add r e m)
            (get_all_users db) [].

(** ** Reading the two serialized columns back (Timeline view) *)

(** [tags_str.split(',') if tags_str else []] *)
Definition tags_of (tags_str : string) : list string :=
  if truthy tags_str then split comma tags_str else [].

(** The ids the people loop goes through: [int(pid)] for each piece of
    [people_str.split(',')], nothing for the empty string. *)
Fixpoint ints (pieces : list string) : Outcome (list Z) :=
  match pieces with
  | [] => Returned []
  | s :: rest => i <- py_int s ;; js <- ints rest ;; Returned (i :: js)
  end.

Definition people_ids_of (people_str : string) : Outcome (list Z) :=
  if truthy people_str then ints (split comma people_str) else Returned [].

(** The people loop itself: an id without a user is skipped ([if p:]). *)
Fixpoint people_loop (people_ids : list string) (db : DB)
  : Outcome (list string) :=
  match people_ids with
  | [] => Returned []
  | s :: rest =>
      i <- py_int s ;;
      let p := get_user_by_id i db in
      es <- people_loop rest db ;;
      Returned (match p with Some (e, _) => e :: es | None => es end)
  end.

Definition people_emails_of (people_str : string) (db : DB)
  : Outcome (list string) :=
  if truthy people_str then people_loop (split comma people_str) db
  else Returned [].

(** ** What a handler run leaves behind *)

(** The Streamlit elements a script run puts on the page. *)
Inductive Element : Type :=
| St_error (msg : string)
| St_success (msg : string)
| St_warning (msg : string)
| St_write (msg : string)
| St_image (img_bytes : string)
| St_expander (label : string).

(** A run of a handler that may write to the database: the rows it
    leaves, the elements it has shown, whether the code ran to its end or
    an exception left it uncaught, and whether it leaves the file
    write-locked.  A connection whose INSERT was refused keeps the
    transaction the INSERT opened; [conn.close()] without [commit] or
    [rollback] does not end it while a cursor of the connection is alive,
    and until then the file refuses every other writer. *)
Record Run : Type := mkRun {
  db_after : DB;
  shown : list Element;
  ended : Outcome unit;
  write_lock_left : bool
}.

(** ** The script as a whole *)

(** What survives from one script run to the next: the database file and
    [st.session_state.user] (id, email, role), [None] when logged out. *)
Record AppState : Type := mkAppState {
  app_db : DB;
  session_user : option (Z * string * string)
}.

(** What the user did to cause a run: at most one button is pressed. *)
Inductive Interaction : Type :=
| PressLogin (email0 pw : string)
| PressSignUp (new_email new_pw new_role : string)
| PressLogout
| NoButton.

(** A cell of the Grid view: the column it is put in, the image with its
    caption, and the lines written when its Details button was pressed. *)
Record GridCell : Type := mkGridCell {
  cell_column : Z;
  cell_image : string;
  cell_caption : string;
  cell_details : list string
}.

(** ** The values the store keeps as given *)

(** A Python [int] that fits SQLite's INTEGER: the sqlite3 binding raises
    [OverflowError] for any other. *)
Definition fits_int64 (n : Z) : Prop :=
  - 2 ^ 63 <= n < 2 ^ 63.

Definition isdigit (c : ascii) : bool :=
  let n := N_of_ascii c in ((48 <=? n) && (n <=? 57))%N.

(** The text [str(date)] of a [datetime.date], ['YYYY-MM-DD'], which is
    what the upload form passes to [save_photo].  It is not a numeric
    literal, so the [DATE] column (NUMERIC affinity) keeps it as text. *)
Definition iso_date (s : string) : bool :=
  match s with
  | String y1 (String y2 (String y3 (String y4 (String h1
      (String m1 (String m2 (String h2 (String d1 (String d2
        EmptyString))))))))) =>
      isdigit y1 && isdigit y2 && isdigit y3 && isdigit y4
      && Ascii.eqb h1 "-" && isdigit m1 && isdigit m2
      && Ascii.eqb h2 "-" && isdigit d1 && isdigit d2
  | _ => false
  end.

(** ** The size of a thumbnail *)

(** [a / b] rounded to the nearest integer, a half upwards. *)
Definition round_div (a b : Z) : Z := (2 * a + b) / (2 * b).

(** Modelled from the spec: [PIL.Image.thumbnail], which computes the size
    of the downsampled image, is not in the repository.  Following the
    specification of Normalize: an image that fits in the box keeps its
    size (it is never enlarged); a larger one is scaled by the one factor
    that makes the tighter of its sides equal to the side of the box, the
    other side being the proportional length rounded to the nearest unit,
    and at least one unit. *)
Definition thumbnail_size (size box : Z * Z) : Z * Z :=
  let '(w, h) := size in
  let '(bw, bh) := box in
  if (w <=? bw) && (h <=? bh) then (w, h)
  else if h * bw <=? w * bh
       then (bw, Z.max 1 (round_div (h * bw) w))
       else (Z.max 1 (round_div (w * bh) h), bh).

(** ** Stand-ins for the external libraries, used by the worked examples *)

Definition example_hexdigest (pw : string) : string := "sha256:" ++ pw.

(** A decoded image is its size; only bytes that start with [JPEG] decode. *)
Definition example_Image_open (b : string) : Outcome (Z * Z) :=
  if String.prefix "JPEG" b then Returned (1600, 1200)
  else Raised UnidentifiedImageError.

Definition example_thumbnail (img : Z * Z) (box : Z * Z) : Outcome (Z * Z) :=
  Returned (Z.min (fst img) (fst box), Z.min (snd img) (snd box)).

Definition example_save_JPEG (img : Z * Z) : Outcome string :=
  Returned "JPEG".

(** A [thumbnail] that sizes its result as the specification says, a
    [save] that refuses the image (as JPEG refuses a mode with
    transparency), and an [st.image] that refuses empty bytes. *)
Definition example_thumbnail_fit (img : Z * Z) (box : Z * Z)
  : Outcome (Z * Z) :=
  Returned (thumbnail_size img box).

Definition example_save_JPEG_refuses (img : Z * Z) : Outcome string :=
  Raised OSError.

Definition example_st_image (img_bytes : string) : Outcome unit :=
  if truthy img_bytes then Returned tt else Raised UnidentifiedImageError.

Definition example_b64encode (b : string) : string := b.

Definition example_b64decode (s : string) : Outcome string := Returned s.

(** The database after the first [init_db], run at midnight. *)
Definition example_db : DB :=
  mkDB [ mkUser 1 "john@family.com" "sha256:demo123" "Dad"
                "2024-01-01 00:00:00";
         mkUser 2 "mary@family.com" "sha256:demo123" "Mum"
                "2024-01-01 00:00:00";
         mkUser 3 "sarah@family.com" "sha256:demo123" "Daughter"
                "2024-01-01 00:00:00" ]
       3 [] 0.

(** Three photos dated as in the ordering example, saved one after the
    other at the clock readings [now1], [now2], [now3]. *)
Definition three_saves (now1 now2 now3 : string) (db : DB) : DB :=
  let db1 := fst (save_photo now1 "Wedding" "The big day" "2020-01-01"
                             "Apia" [1; 2] ["family"] 1 "aW1nMQ==" db) in
  let db2 := fst (save_photo now2 "Picnic" "Lunch outside" "2021-06-15"
                             "Park" [3] ["food"; "summer"] 2 "aW1nMg==" db1) in
  fst (save_photo now3 "Swim" "After lunch" "2021-06-15"
                  "Piha Beach" [] [] 3 "aW1nMw==" db2).

(** Two lists hold the same elements, whatever the order and the repeats. *)
Definition same_set {A : Type} (l1 l2 : list A) : Prop :=
  forall x, In x l1 <-> In x l2.

Section App.

#[local] Set Default Proof Using "Type".

(** [hashlib.sha256(pw.encode()).hexdigest()] *)
Variable sha256_hexdigest : string -> string.

(** [PIL]: decoded images, [Image.open(io.BytesIO(b))], [img.thumbnail]
    (in place, here a function of the image and the box) and
    [img.save(buffered, format="JPEG")] with the bytes written.  Each of
    the three can raise: [Image.open] on bytes it does not recognise,
    [thumbnail] when the pixel data cannot be loaded, [save] on a mode
    JPEG cannot hold. *)
Variable Image : Type.
Variable Image_open : string -> Outcome Image.
Variable thumbnail : Image -> Z * Z -> Outcome Image.
Variable save_JPEG : Image -> Outcome string.

(** [img.size], as (width, height). *)
Variable Image_size : Image -> Z * Z.

(** [base64.b64encode(b).decode('utf-8')] and [base64.b64decode(s)] *)
Variable b64encode : string -> string.
Variable b64decode : string -> Outcome string.

Definition hash_password (pw : string) : string := sha256_hexdigest pw.

(** *** [init_db] *)

Definition demo_users : list (string * string * string) :=
  [ ("john@family.com", "demo123", "Dad");
    ("mary@family.com", "demo123", "Mum");
    ("sarah@family.com", "demo123", "Daughter") ].

(** The seeding loop: [except sqlite3.IntegrityError: pass]. *)
Fixpoint seed (now : string) (demo : list (string * string * string))
    (db : DB) : Outcome DB :=
  match demo with
  | [] => Returned db
  | (e, pw, r) :: rest =>
      match insert_user now e (sha256_hexdigest pw) r db with
      | Returned db' => seed now rest db'
      | Raised IntegrityError => seed now rest db
      | Raised ex => Raised ex
      end
  end.

(** The two [CREATE TABLE IF NOT EXISTS] leave an existing file as it is. *)
Definition init_db (now : string) (db : DB) : Outcome DB :=
  seed now demo_users db.

(** [init_db] on a file that another connection may hold write-locked:
    a writer's [c.execute("INSERT ...")] then raises [OperationalError]
    (database is locked) when the busy timeout runs out, before any
    constraint is looked at, and the loop does not catch it. *)
Definition insert_user_on (write_locked : bool) (now e pw r : string)
    (db : DB) : Outcome DB :=
  if write_locked then Raised OperationalError
  else insert_user now e pw r db.

Fixpoint seed_on (write_locked : bool) (now : string)
    (demo : list (string * string * string)) (db : DB) : Outcome DB :=
  match demo with
  | [] => Returned db
  | (e, pw, r) :: rest =>
      match insert_user_on write_locked now e (sha256_hexdigest pw) r db with
      | Returned db' => seed_on write_locked now rest db'
      | Raised IntegrityError => seed_on write_locked now rest db
      | Raised ex => Raised ex
      end
  end.

Definition init_db_on (write_locked : bool) (now : string) (db : DB)
  : Outcome DB :=
  seed_on write_locked now demo_users db.

(** *** [authenticate] and the Login handler *)

(** [SELECT id, role FROM users WHERE email = ? AND password = ?], then
    [fetchone()]. *)
Definition authenticate (email0 pw : string) (db : DB)
  : option (Z * string) :=
  let hashed_pw := hash_password pw in
  match filter (fun u => String.eqb (email u) email0
                         && String.eqb (password u) hashed_pw)
               (users db) with
  | [] => None
  | u :: _ => Some (uid u, role u)
  end.

(** The Login button: the new [st.session_state.user] (id, email, role)
    and what is shown. *)
Definition login (email0 pw : string) (db : DB)
  : option (Z * string * string) * list Element :=
  match authenticate email0 pw db with
  | Some (i, r) => (Some (i, email0, r), [])
  | None => (None, [St_error "Invalid credentials"])
  end.

(** *** The Sign Up handler *)

(** On [IntegrityError] the handler shows the message and goes on to
    [conn.close()] with the refused INSERT's transaction still open; its
    cursor [c] is a global of the script, so the file is left
    write-locked. *)
Definition sign_up (now new_email new_pw new_role : string) (db : DB)
  : Run :=
  if truthy new_email && truthy new_pw && truthy new_role then
    let hashed_pw := hash_password new_pw in
    match insert_user now new_email hashed_pw new_role db with
    | Returned db' =>
        mkRun db' [St_success "Account created! Please login."]
              (Returned tt) false
    | Raised IntegrityError =>
        mkRun db [St_error "Email already exists"] (Returned tt) true
    | Raised ex => mkRun db [] (Raised ex) false
    end
  else mkRun db [St_error "Fill all fields"] (Returned tt) false.

(** *** [resize_image], [base64_image] and the Upload Photo handler *)

Definition max_size : Z * Z := (800, 800).

Definition resize_image (image : string) : Outcome string :=
  img <- Image_open image ;;
  small <- thumbnail img max_size ;;
  save_JPEG small.

Definition base64_image (image_bytes : string) : string :=
  b64encode image_bytes.

(** [[t.strip() for t in tags.split(',')] if tags else []] *)
Definition tags_list_of (tags : string) : list string :=
  if truthy tags then map strip (split comma tags) else [].

(** [people_options[p]] in [{u[1]: u[0] for u in users}]: a later user
    with the same email would replace an earlier one. *)
Definition people_option (p : string) (db : DB) : option Z :=
  match rev (filter (fun u => String.eqb (snd (fst u)) p)
                    (get_all_users db)) with
  | [] => None
  | u :: _ => Some (fst (fst u))
  end.

(** The multiselect only offers the keys of [people_options]; a choice
    outside them is dropped here. *)
Definition people_ids_for (selected_people : list string) (db : DB)
  : list Z :=
  flat_map (fun p => match people_option p db with
                     | Some i => [i]
                     | None => []
                     end) selected_people.

Definition collage_warning : string :=
  "In production, AI will detect and separate individual photos from this collage.".

(** What the user has entered when the script runs: [date] is the text
    [str(date)], [uploaded_file] the bytes read from the uploader when a
    file is there, [save_clicked] whether "Save Photo" was pressed. *)
Record UploadForm : Type := mkUploadForm {
  f_title : string;
  f_desc : string;
  f_date : string;
  f_loc : string;
  f_selected_people : list string;
  f_tags : string;
  f_uploaded_file : option string;
  f_is_collage : bool;
  f_save_clicked : bool
}.

Definition upload_photo (now : string) (session_user_id : Z)
    (f : UploadForm) (db : DB) : Run :=
  let people_ids := people_ids_for (f_selected_people f) db in
  let tags_list := tags_list_of (f_tags f) in
  match f_uploaded_file f with
  | None => mkRun db [] (Returned tt) false
  | Some image_bytes =>
      let warned :=
        if f_is_collage f then [St_warning collage_warning] else [] in
      match resize_image image_bytes with
      | Raised ex => mkRun db warned (Raised ex) false
      | Returned resized_bytes =>
          let image_data := base64_image resized_bytes in
          if f_save_clicked f then
            let db' :=
              fst (save_photo now (f_title f) (f_desc f) (f_date f)
                              (f_loc f) people_ids tags_list
                              session_user_id image_data db) in
            mkRun db' (warned ++ [St_success "Photo saved!"]) (Returned tt)
                  false
          else mkRun db warned (Returned tt) false
      end
  end.

(** *** The Timeline view *)

(** One turn of [for photo in photos:], with the elements shown before
    the turn ends or raises.  [st.image] is taken to accept the decoded
    bytes, as it does the JPEG that [resize_image] wrote. *)
Definition timeline_photo (photo : Photo) (db : DB)
  : list Element * Outcome unit :=
  let uploader := get_user_by_id (uploader_id photo) db in
  match people_emails_of (people_str photo) db with
  | Raised ex => ([], Raised ex)
  | Returned people_emails =>
      let tags := tags_of (tags_str photo) in
      let head := [St_expander (title photo ++ " - " ++ date photo)] in
      match b64decode (image_data photo) with
      | Raised ex => (head, Raised ex)
      | Returned img_bytes =>
          let body :=
            (head ++
             [ St_image img_bytes;
               St_write ("**Description:** " ++ desc photo);
               St_write ("**Location:** " ++ loc photo);
               St_write ("**People:** " ++ join ", " people_emails);
               St_write ("**Tags:** " ++ join ", " tags) ])%list in
          match uploader with
          | None => (body, Raised TypeError)
          | Some (e, r) =>
              ((body ++
                [St_write ("**Uploaded by:** " ++ e ++ " (" ++ r ++ ")")])%list,
               Returned tt)
          end
      end
  end.

Fixpoint timeline (photos : list Photo) (db : DB)
  : list Element * Outcome unit :=
  match photos with
  | [] => ([], Returned tt)
  | photo :: rest =>
      match timeline_photo photo db with
      | (out, Returned _) =>
          let (out', r) := timeline rest db in ((out ++ out')%list, r)
      | (out, Raised ex) => (out, Raised ex)
      end
  end.

(** The page below the upload form, in Timeline mode. *)
Definition timeline_view (search_query : string) (db : DB)
  : list Element * Outcome unit :=
  let photos :=
    if truthy search_query then search_photos search_query db
    else get_all_photos db in
  timeline photos db.

(** ** The vocabulary of the properties *)

(** [has_char c s]: the character [c] occurs in [s]. *)
Fixpoint has_char (c : ascii) (s : string) : bool :=
  match s with
  | EmptyString => false
  | String c' s' => Ascii.eqb c' c || has_char c s'
  end.

(** The order in the words of the specification: a later date first, and
    on the same date a later (or equal) creation time first. *)
Definition date_desc_created_desc (a b : Photo) : Prop :=
  String.ltb (date b) (date a) = true
  \/ (date a = date b /\ String.leb (created_at b) (created_at a) = true).

Fixpoint lower (s : string) : string :=
  match s with
  | EmptyString => EmptyString
  | String c s' => String (tolower c) (lower s')
  end.

(** [substring q s]: [q] occurs in [s]. *)
Definition substring (q s : string) : Prop :=
  exists pre post, s = pre ++ q ++ post.

(** [q] occurs in [s] when ASCII letters are compared without case. *)
Definition nocase_substring (q s : string) : Prop :=
  substring (lower q) (lower s).

(** The same test as a program. *)
Fixpoint prefix_nocase (q s : string) : bool :=
  match q with
  | EmptyString => true
  | String c q' =>
      match s with
      | EmptyString => false
      | String c2 s' => eq_nocase c c2 && prefix_nocase q' s'
      end
  end.

Fixpoint contains_nocase (q s : string) : bool :=
  prefix_nocase q s
  || match s with
     | EmptyString => false
     | String _ s' => contains_nocase q s'
     end.

(** The [WHERE] clause, read as five substring tests. *)
Definition contains_query (query : string) (p : Photo) : bool :=
  contains_nocase query (title p) || contains_nocase query (desc p)
  || contains_nocase query (loc p) || contains_nocase query (tags_str p)
  || contains_nocase query (people_str p).

(** [email TEXT UNIQUE], [id INTEGER PRIMARY KEY AUTOINCREMENT] in both
    tables: emails and ids are not repeated, and no id is above the
    counter of its table. *)
Definition db_ok (db : DB) : Prop :=
  NoDup (map email (users db))
  /\ NoDup (map uid (users db))
  /\ Forall (fun u => uid u <= users_seq db) (users db)
  /\ NoDup (map pid (photos db))
  /\ Forall (fun p => pid p <= photos_seq db) (photos db).

(** A stored record that matches both the email and the digest. *)
Definition credentials_match (email0 pw : string) (u : User) : Prop :=
  email u = email0 /\ password u = hash_password pw.

(** The query occurs, without regard to ASCII case, in one of the five
    searched columns. *)
Definition query_in_photo (query : string) (p : Photo) : Prop :=
  nocase_substring query (title p) \/ nocase_substring query (desc p)
  \/ nocase_substring query (loc p) \/ nocase_substring query (tags_str p)
  \/ nocase_substring query (people_str p).

(** The emails the People line shows for the ids [ids]: each id that has
    a user contributes that user's email, the others nothing. *)
Definition existing_emails (ids : list Z) (db : DB) : list string :=
  flat_map (fun i => match get_user_by_id i db with
                     | Some (e, _) => [e]
                     | None => []
                     end) ids.

(** What one turn of the Timeline loop shows before the uploader line. *)
Definition photo_body (photo : Photo) (people_emails : list string)
    (img_bytes : string) : list Element :=
  [ St_expander (title photo ++ " - " ++ date photo);
    St_image img_bytes;
    St_write ("**Description:** " ++ desc photo);
    St_write ("**Location:** " ++ loc photo);
    St_write ("**People:** " ++ join ", " people_emails);
    St_write ("**Tags:** " ++ join ", " (tags_of (tags_str photo))) ].

(** *** The Grid view *)

(** [st.image(img_bytes, caption=title, ...)]: raises when the bytes are
    not an image. *)
Variable st_image : string -> Outcome unit.

(** [for i, photo in enumerate(photos):] from index [i] on.  [pressed] is
    the photo id in the key of the Details button that was pressed. *)
Fixpoint grid_from (i : Z) (pressed : option Z) (photos : list Photo)
  : list GridCell * Outcome unit :=
  match photos with
  | [] => ([], Returned tt)
  | photo :: rest =>
      match b64decode (image_data photo) with
      | Raised ex => ([], Raised ex)
      | Returned img_bytes =>
        match st_image img_bytes with
        | Raised ex => ([], Raised ex)
        | Returned _ =>
          let details :=
            match pressed with
            | Some k =>
                if k =? pid photo then
                  [ "**Title:** " ++ title photo;
                    "**Date:** " ++ date photo;
                    "**Description:** " ++ desc photo;
                    "**Location:** " ++ loc photo ]
                else []
            | None => []
            end in
          let (cells, r) := grid_from (i + 1) pressed rest in
          (mkGridCell (i mod 3) img_bytes (title photo) details :: cells, r)
        end
      end
  end.

Definition grid (pressed : option Z) (photos : list Photo)
  : list GridCell * Outcome unit :=
  grid_from 0 pressed photos.

(** *** One run of the script *)

(** The module runs [init_db()] first.  (A run that starts while the file
    is still write-locked by a refused Sign Up raises there and changes
    nothing; the runs described here are those that find the file free.)
    Logged out, the page has the Login
    and Sign Up tabs; logged in, the Logout button and the upload form,
    whose contents [upload] are [None] when the form is left alone.  The
    widgets of the other page are not there to be pressed.  The result is
    what the next run starts from, and whether the run got past the upload
    form or raised before; the view below the form ([timeline_view],
    [grid]) changes nothing that is kept. *)
Definition script_run (now : string) (pressed : Interaction)
    (upload : option UploadForm) (st : AppState) : AppState * Outcome unit :=
  match init_db now (app_db st) with
  | Raised ex => (st, Raised ex)
  | Returned db =>
      match session_user st with
      | None =>
          match pressed with
          | PressLogin email0 pw =>
              (mkAppState db (fst (login email0 pw db)), Returned tt)
          | PressSignUp new_email new_pw new_role =>
              let run := sign_up now new_email new_pw new_role db in
              (mkAppState (db_after run) None, ended run)
          | _ => (mkAppState db None, Returned tt)
          end
      | Some (user_id, user_email, user_role) =>
          match pressed with
          | PressLogout => (mkAppState db None, Returned tt)
          | _ =>
              match upload with
              | None => (mkAppState db (session_user st), Returned tt)
              | Some f =>
                  let run := upload_photo now user_id f db in
                  (mkAppState (db_after run) (session_user st), ended run)
              end
          end
      end
  end.

(** The states the application can be in: it starts with no database file
    and nobody logged in, and moves by script runs. *)
Inductive reachable : AppState -> Prop :=
| reachable_start : reachable (mkAppState empty_db None)
| reachable_run (now : string) (pressed : Interaction)
    (upload : option UploadForm) (st : AppState) :
    reachable st -> reachable (fst (script_run now pressed upload st)).

(** ** More vocabulary *)

(** The user with id [i] is stored. *)
Definition user_exists (i : Z) (db : DB) : Prop :=
  exists u, In u (users db) /\ uid u = i.

(** A row the Timeline can render: its uploader exists, its people column
    is one [save_photo] writes and its image is one [base64_image] writes. *)
Definition renderable (db : DB) (p : Photo) : Prop :=
  user_exists (uploader_id p) db
  /\ (exists ids, people_str p = people_str_of ids)
  /\ (exists image_bytes, image_data p = base64_image image_bytes).

Definition app_ok (st : AppState) : Prop :=
  db_ok (app_db st)
  /\ (forall i e r, session_user st = Some (i, e, r) ->
                    user_exists i (app_db st))
  /\ Forall (renderable (app_db st)) (photos (app_db st)).

(** The emails of the users with role [r], in the order of the table. *)
Definition emails_with_role (r : string) (l : list User) : list string :=
  map email (filter (fun u => String.eqb (role u) r) l).

(** [role_map.get(r, [])] *)
Fixpoint lookup_role (r : string) (m : list (string * list string))
  : list string :=
  match m with
  | [] => []
  | (r', es) :: m' => if String.eqb r' r then es else lookup_role r m'
  end.

(** The roles of the users, each once, in the order of first appearance. *)
Fixpoint roles_seen (seen : list string) (l : list User) : list string :=
  match l with
  | [] => []
  | u :: l' =>
      if existsb (String.eqb (role u)) seen then roles_seen seen l'
      else role u :: roles_seen (role u :: seen) l'
  end.

(** ** Splitting and joining *)

Lemma split_not_nil (sep : ascii) (s : string) : split sep s <> [].
Proof.
  destruct s as [|c s]; simpl; [discriminate|].
  destruct (Ascii.eqb c sep); [discriminate|].
  destruct (split sep s); discriminate.
Qed.

Lemma split_without_sep (sep : ascii) (s : string) :
  has_char sep s = false -> split sep s = [s].
Proof.
  induction s as [|c s IH]; simpl; [reflexivity|].
  intros H. apply orb_false_iff in H as [Hc Hs].
  rewrite Hc, (IH Hs). reflexivity.
Qed.

Lemma split_append (sep : ascii) (a b : string) :
  has_char sep a = false ->
  split sep (a ++ String sep b) = a :: split sep b.
Proof.
  induction a as [|c a IH]; simpl.
  - intros _. now rewrite Ascii.eqb_refl.
  - intros H. apply orb_false_iff in H as [Hc Ha].
    rewrite Hc, (IH Ha). reflexivity.
Qed.

Lemma join_cons2 (sep x y : string) (l : list string) :
  join sep (x :: y :: l) = x ++ sep ++ join sep (y :: l).
Proof. reflexivity. Qed.

(** Splitting undoes joining when no part holds the separator. *)
Lemma split_join (parts : list string) :
  parts <> [] ->
  Forall (fun t => has_char comma t = false) parts ->
  split comma (join "," parts) = parts.
Proof.
  induction parts as [|x [|y l] IH]; intros Hne Hall.
  - now elim Hne.
  - simpl. apply split_without_sep. now inversion Hall.
  - rewrite join_cons2. inversion Hall as [|? ? Hx Hrest]; subst.
    change ("," ++ join "," (y :: l)) with (String comma (join "," (y :: l))).
    rewrite split_append by assumption.
    f_equal. apply IH; [discriminate | assumption].
Qed.

(** The joined text is empty only for the list holding one empty part. *)
Lemma join_empty (parts : list string) :
  parts <> [] -> join "," parts = "" -> parts = [""].
Proof.
  destruct parts as [|x [|y l]]; intros Hne H.
  - now elim Hne.
  - simpl in H. now subst.
  - rewrite join_cons2 in H. destruct x; discriminate.
Qed.

(** ** Decimal numerals *)

Lemma uint_digits_no_comma (d : Decimal.uint) :
  has_char comma (NilEmpty.string_of_uint d) = false.
Proof. induction d; simpl; auto. Qed.

Lemma py_str_no_comma (n : Z) : has_char comma (py_str n) = false.
Proof.
  unfold py_str.
  destruct (Z.to_int n) as [d|d]; simpl;
    destruct d; simpl; auto using uint_digits_no_comma.
Qed.

Lemma py_str_not_empty (n : Z) : py_str n <> "".
Proof.
  unfold py_str.
  destruct n as [|p|p]; simpl; try discriminate.
  - unfold NilZero.string_of_uint.
    destruct (Pos.to_uint p); simpl; discriminate.
Qed.

Lemma py_int_py_str (n : Z) : py_int (py_str n) = Returned n.
Proof.
  unfold py_int, py_str.
  rewrite NilZero.isi.
  - now rewrite DecimalZ.of_to.
  - destruct n; simpl; try discriminate.
    intros [= H]. now apply DecimalPos.Unsigned.to_uint_nonnil in H.
  - destruct n; simpl; try discriminate.
    intros [= H]. now apply DecimalPos.Unsigned.to_uint_nonnil in H.
Qed.

Lemma ints_py_str (l : list Z) : ints (map py_str l) = Returned l.
Proof.
  induction l as [|n l IH]; simpl; [reflexivity|].
  now rewrite py_int_py_str, IH.
Qed.

(** ** The order of [ORDER BY date DESC, created_at DESC] *)

Lemma ascii_compare_refl (a : ascii) : Ascii.compare a a = Eq.
Proof. unfold Ascii.compare. apply N.compare_refl. Qed.

Lemma string_compare_refl (s : string) : String.compare s s = Eq.
Proof.
  induction s as [|a s IH]; simpl; [reflexivity|].
  now rewrite ascii_compare_refl.
Qed.

Lemma ascii_compare_lt_trans (a b c : ascii) :
  Ascii.compare a b = Lt -> Ascii.compare b c = Lt -> Ascii.compare a c = Lt.
Proof.
  unfold Ascii.compare. rewrite !N.compare_lt_iff. apply N.lt_trans.
Qed.

Lemma string_compare_lt_trans (s1 : string) :
  forall s2 s3,
    String.compare s1 s2 = Lt -> String.compare s2 s3 = Lt ->
    String.compare s1 s3 = Lt.
Proof.
  induction s1 as [|a s1 IH]; intros [|b s2] [|c s3]; simpl;
    try discriminate; try reflexivity.
  destruct (Ascii.compare a b) eqn:Hab; try discriminate;
    destruct (Ascii.compare b c) eqn:Hbc; try discriminate; intros H1 H2.
  - apply Ascii.compare_eq_iff in Hab, Hbc. subst.
    rewrite ascii_compare_refl. eauto.
  - apply Ascii.compare_eq_iff in Hab. subst. now rewrite Hbc.
  - apply Ascii.compare_eq_iff in Hbc. subst. now rewrite Hab.
  - now rewrite (ascii_compare_lt_trans _ _ _ Hab Hbc).
Qed.

Lemma string_compare_gt_lt (s1 s2 : string) :
  String.compare s1 s2 = Gt <-> String.compare s2 s1 = Lt.
Proof.
  rewrite (String.compare_antisym s2 s1).
  destruct (String.compare s1 s2); simpl; split; congruence.
Qed.

Lemma string_leb_refl (s : string) : String.leb s s = true.
Proof. unfold String.leb. now rewrite string_compare_refl. Qed.

Lemma string_leb_trans (s1 s2 s3 : string) :
  String.leb s1 s2 = true -> String.leb s2 s3 = true ->
  String.leb s1 s3 = true.
Proof.
  unfold String.leb.
  destruct (String.compare s1 s2) eqn:H12; try discriminate;
    destruct (String.compare s2 s3) eqn:H23; try discriminate; intros _ _.
  - apply String.compare_eq_iff in H12, H23. subst.
    now rewrite string_compare_refl.
  - apply String.compare_eq_iff in H12. subst. now rewrite H23.
  - apply String.compare_eq_iff in H23. subst. now rewrite H12.
  - now rewrite (string_compare_lt_trans _ _ _ H12 H23).
Qed.

Lemma listed_before_spec (a b : Photo) :
  listed_before a b = true <-> date_desc_created_desc a b.
Proof.
  unfold listed_before, date_desc_created_desc, String.ltb.
  destruct (String.compare (date a) (date b)) eqn:H.
  - apply String.compare_eq_iff in H. rewrite H, string_compare_refl.
    split; [intros Hc; right; now split | intros [Hd | [_ Hc]]; easy].
  - rewrite (String.compare_antisym (date b) (date a)), H. simpl.
    split; [discriminate | intros [Hd | [Hd _]]; [discriminate|]].
    rewrite Hd, string_compare_refl in H. discriminate.
  - apply string_compare_gt_lt in H. rewrite H. split; auto.
Qed.

Lemma listed_before_total (a b : Photo) :
  listed_before a b = false -> listed_before b a = true.
Proof.
  unfold listed_before.
  rewrite (String.compare_antisym (date b) (date a)).
  destruct (String.compare (date a) (date b)); simpl; try easy.
  intros H. destruct (String.leb_total (created_at a) (created_at b)); congruence.
Qed.

Lemma listed_before_trans (a b c : Photo) :
  listed_before a b = true -> listed_before b c = true ->
  listed_before a c = true.
Proof.
  unfold listed_before.
  destruct (String.compare (date a) (date b)) eqn:Hab; try discriminate;
    destruct (String.compare (date b) (date c)) eqn:Hbc; try discriminate;
    intros H1 H2.
  - apply String.compare_eq_iff in Hab, Hbc. rewrite Hab, Hbc.
    rewrite string_compare_refl. eapply string_leb_trans; eauto.
  - apply String.compare_eq_iff in Hab. now rewrite Hab, Hbc.
  - apply String.compare_eq_iff in Hbc. now rewrite <- Hbc, Hab.
  - apply string_compare_gt_lt in Hab, Hbc.
    pose proof (string_compare_lt_trans _ _ _ Hbc Hab) as H.
    apply string_compare_gt_lt in H. now rewrite H.
Qed.

Lemma sorter_insert_perm (x : Photo) (l : list Photo) :
  Permutation (sorter_insert x l) (x :: l).
Proof.
  induction l as [|y l IH]; simpl; [reflexivity|].
  destruct (listed_before x y); [reflexivity|].
  rewrite IH. apply perm_swap.
Qed.

Lemma order_by_perm (rows : list Photo) :
  Permutation (order_by_date_created rows) rows.
Proof.
  induction rows as [|x rows IH]; simpl; [reflexivity|].
  rewrite sorter_insert_perm. now constructor.
Qed.

Lemma sorter_insert_sorted (x : Photo) (l : list Photo) :
  StronglySorted date_desc_created_desc l ->
  StronglySorted date_desc_created_desc (sorter_insert x l).
Proof.
  induction 1 as [|y l Hs IH Hy]; simpl.
  - repeat constructor.
  - destruct (listed_before x y) eqn:Hxy.
    + constructor; [now constructor|].
      constructor; [now apply listed_before_spec|].
      eapply Forall_impl; [|exact Hy].
      intros z Hz. apply listed_before_spec.
      apply listed_before_spec in Hz.
      eapply listed_before_trans; eauto.
    + constructor; [assumption|].
      rewrite (sorter_insert_perm x l).
      constructor; [|assumption].
      apply listed_before_spec. now apply listed_before_total.
Qed.

Lemma order_by_sorted (rows : list Photo) :
  StronglySorted date_desc_created_desc (order_by_date_created rows).
Proof.
  induction rows as [|x rows IH]; simpl; [constructor|].
  now apply sorter_insert_sorted.
Qed.

(** ** [LIKE '%query%'] and substrings *)

Lemma prefix_nocase_spec (q : string) :
  forall s, prefix_nocase q s = true <-> exists post, lower s = lower q ++ post.
Proof.
  induction q as [|c q IH]; intros s; simpl.
  - split; [intros _; now exists (lower s) | reflexivity].
  - destruct s as [|c2 s]; simpl.
    + split; [discriminate | intros [post H]; discriminate].
    + unfold eq_nocase. rewrite andb_true_iff, Ascii.eqb_eq, IH.
      split.
      * intros [Hc [post Hp]]. exists post. now rewrite Hc, Hp.
      * intros [post [= Hc Hp]]. split; [now symmetry | now exists post].
Qed.

Lemma contains_nocase_spec (q : string) :
  forall s, contains_nocase q s = true <-> nocase_substring q s.
Proof.
  unfold nocase_substring, substring.
  induction s as [|c s IH]; simpl; rewrite orb_true_iff, prefix_nocase_spec.
  - split.
    + intros [[post H] | H]; [|discriminate]. now exists "", post.
    + intros [pre [post H]]. left.
      destruct pre; [now exists post | discriminate].
  - rewrite IH. split.
    + intros [[post H] | [pre [post H]]].
      * now exists "", post.
      * exists (String (tolower c) pre), post. simpl. now rewrite H.
    + intros [[|a pre] [post H]]; simpl in H.
      * left. now exists post.
      * right. injection H as _ H. now exists pre, post.
Qed.

Lemma like_percent (pat s : string) :
  like (String "%" pat) s
  = like pat s
    || match s with
       | EmptyString => false
       | String _ s' => like (String "%" pat) s'
       end.
Proof. destruct s; reflexivity. Qed.

Lemma like_percent_only (s : string) : like "%" s = true.
Proof.
  induction s as [|c s IH]; rewrite like_percent; [reflexivity|].
  rewrite IH. apply orb_true_r.
Qed.

(** A pattern without wildcards followed by [%] tests a prefix. *)
Lemma like_plain_then_percent (q : string) :
  has_char "%" q = false -> has_char "_" q = false ->
  forall s, like (q ++ "%") s = prefix_nocase q s.
Proof.
  induction q as [|c q IH]; intros Hp Hu s.
  - apply like_percent_only.
  - simpl in Hp, Hu.
    apply orb_false_iff in Hp as [Hp1 Hp2].
    apply orb_false_iff in Hu as [Hu1 Hu2].
    simpl. rewrite Hp1, Hu1.
    destruct s as [|c2 s]; [reflexivity|].
    simpl. now rewrite IH.
Qed.

Lemma like_contains (q : string) :
  has_char "%" q = false -> has_char "_" q = false ->
  forall s, like ("%" ++ q ++ "%") s = contains_nocase q s.
Proof.
  intros Hp Hu.
  change ("%" ++ q ++ "%") with (String "%" (q ++ "%")).
  induction s as [|c s IH]; rewrite like_percent;
    rewrite (like_plain_then_percent q Hp Hu).
  - reflexivity.
  - rewrite IH. reflexivity.
Qed.

Lemma matches_contains (query : string) :
  has_char "%" query = false -> has_char "_" query = false ->
  forall p, matches ("%" ++ query ++ "%") p = contains_query query p.
Proof.
  intros Hp Hu p. unfold matches, contains_query.
  now rewrite !(like_contains query Hp Hu).
Qed.

(** ** What the schema guarantees *)

Lemma db_ok_empty : db_ok empty_db.
Proof. repeat split; simpl; constructor. Qed.

Lemma email_stored_iff (e : string) (l : list User) :
  existsb (fun u => String.eqb (email u) e) l = true
  <-> exists u, In u l /\ email u = e.
Proof.
  rewrite existsb_exists.
  split; intros [u [Hin H]]; exists u; split; auto;
    now apply String.eqb_eq.
Qed.

Lemma NoDup_snoc {A} (l : list A) (x : A) :
  NoDup l -> ~ In x l -> NoDup (l ++ [x]).
Proof.
  intros Hl Hx. apply NoDup_app; [assumption | repeat constructor; easy |].
  intros y Hy [<- | []]. contradiction.
Qed.

Lemma above_all_fresh {A} (key : A -> Z) (l : list A) (n : Z) :
  Forall (fun a => key a <= n) l -> ~ In (n + 1) (map key l).
Proof.
  intros Hall Hin. apply in_map_iff in Hin as [a [Ha Hin]].
  rewrite Forall_forall in Hall. specialize (Hall a Hin). lia.
Qed.

Lemma Forall_snoc_le {A} (key : A -> Z) (l : list A) (x : A) (n : Z) :
  Forall (fun a => key a <= n) l -> key x = n + 1 ->
  Forall (fun a => key a <= n + 1) (l ++ [x]).
Proof.
  intros Hall Hx. apply Forall_app. split.
  - eapply Forall_impl; [|exact Hall]. simpl. intros; lia.
  - constructor; [lia | constructor].
Qed.

Lemma insert_user_ok (now e pw r : string) (db db' : DB) :
  db_ok db -> insert_user now e pw r db = Returned db' -> db_ok db'.
Proof.
  intros (He & Hu & Hs & Hp & Hps). unfold insert_user.
  destruct (existsb _ _) eqn:Hex; [discriminate|].
  intros [= <-]. unfold db_ok; simpl.
  rewrite !map_app. simpl. repeat split; auto.
  - apply NoDup_snoc; [assumption|].
    intros Hin. apply in_map_iff in Hin as [u [Hue Hin]].
    assert (existsb (fun u => String.eqb (email u) e) (users db) = true)
      as Habs by (apply email_stored_iff; eauto).
    congruence.
  - apply NoDup_snoc; [assumption|]. now apply above_all_fresh.
  - now apply Forall_snoc_le.
Qed.

Lemma insert_photo_ok (now t d dt l ps ts : string) (u : Z) (img : string)
    (db : DB) :
  db_ok db -> db_ok (insert_photo now t d dt l ps ts u img db).
Proof.
  intros (He & Hu & Hs & Hp & Hps). unfold db_ok; simpl.
  rewrite !map_app. simpl. repeat split; auto.
  - apply NoDup_snoc; [assumption|]. now apply above_all_fresh.
  - now apply Forall_snoc_le.
Qed.

Lemma insert_user_raises (now e pw r : string) (db : DB) (ex : PyExc) :
  insert_user now e pw r db = Raised ex -> ex = IntegrityError.
Proof.
  unfold insert_user. destruct (existsb _ _); congruence.
Qed.

(** [init_db] always runs to its end and keeps the schema's guarantees. *)
Lemma seed_ok (now : string) (demo : list (string * string * string)) :
  forall db, db_ok db ->
    exists db', seed now demo db = Returned db' /\ db_ok db'.
Proof.
  induction demo as [|[[e pw] r] demo IH]; intros db Hok; simpl.
  - eauto.
  - destruct (insert_user now e (sha256_hexdigest pw) r db) as [db1|ex] eqn:Hi.
    + apply IH. eapply insert_user_ok; eauto.
    + rewrite (insert_user_raises _ _ _ _ _ _ Hi). now apply IH.
Qed.

Lemma init_db_ok (now : string) (db : DB) :
  db_ok db -> exists db', init_db now db = Returned db' /\ db_ok db'.
Proof. apply seed_ok. Qed.

Lemma sign_up_ok (now e pw r : string) (db : DB) :
  db_ok db -> db_ok (db_after (sign_up now e pw r db)).
Proof.
  intros Hok. unfold sign_up.
  destruct (truthy e && truthy pw && truthy r); [|assumption].
  destruct (insert_user now e (hash_password pw) r db) as [db1|ex] eqn:Hi.
  - simpl. eapply insert_user_ok; eauto.
  - destruct ex; assumption.
Qed.

Lemma save_photo_ok (now t d dt l : string) (people : list Z)
    (tags : list string) (u : Z) (img : string) (db : DB) :
  db_ok db -> db_ok (fst (save_photo now t d dt l people tags u img db)).
Proof. intros Hok. simpl. now apply insert_photo_ok. Qed.

(** ** Looking a row up by a unique column *)

Lemma filter_none {A} (p : A -> bool) (l : list A) :
  (forall x, In x l -> p x = false) -> filter p l = [].
Proof.
  induction l as [|x l IH]; intros H; simpl; [reflexivity|].
  rewrite (H x) by now left. apply IH. intros y Hy. apply H. now right.
Qed.

Lemma filter_unique_key {A K} (key : A -> K) (p : A -> bool)
    (l : list A) (u : A) :
  NoDup (map key l) -> In u l -> p u = true ->
  (forall x, In x l -> p x = true -> key x = key u) ->
  filter p l = [u].
Proof.
  intros Hnd Hin Hpu Hkey.
  induction l as [|x l IH]; [contradiction|].
  simpl in Hnd. inversion Hnd as [|? ? Hx Hl]; subst.
  destruct Hin as [-> | Hin]; simpl.
  - rewrite Hpu. f_equal. apply filter_none.
    intros y Hy. destruct (p y) eqn:Hpy; [|reflexivity].
    elim Hx. rewrite <- (Hkey y (or_intror Hy) Hpy). now apply in_map.
  - destruct (p x) eqn:Hpx.
    + elim Hx. rewrite (Hkey x (or_introl eq_refl) Hpx). now apply in_map.
    + apply IH; auto. intros y Hy. apply Hkey. now right.
Qed.

Lemma get_user_by_id_found (db : DB) (u : User) :
  db_ok db -> In u (users db) ->
  get_user_by_id (uid u) db = Some (email u, role u).
Proof.
  intros (_ & Hu & _) Hin. unfold get_user_by_id.
  rewrite (filter_unique_key uid _ (users db) u); auto.
  - apply Z.eqb_refl.
  - intros x _. apply Z.eqb_eq.
Qed.

Lemma get_user_by_id_none (db : DB) (i : Z) :
  get_user_by_id i db = None <-> (forall u, In u (users db) -> uid u <> i).
Proof.
  unfold get_user_by_id. split.
  - destruct (filter _ _) as [|x l] eqn:Hf; [|discriminate].
    intros _ u Hin Hi.
    assert (In u (filter (fun u => uid u =? i) (users db))) as H
        by (apply filter_In; split; [assumption | now apply Z.eqb_eq]).
    rewrite Hf in H. contradiction.
  - intros H. rewrite filter_none; [reflexivity|].
    intros u Hin. apply Z.eqb_neq. now apply H.
Qed.

(** ** Credentials *)

Lemma credentials_match_bool (email0 pw : string) (u : User) :
  String.eqb (email u) email0 && String.eqb (password u) (hash_password pw)
  = true <-> credentials_match email0 pw u.
Proof.
  unfold credentials_match.
  now rewrite andb_true_iff, !String.eqb_eq.
Qed.

Lemma authenticate_none (email0 pw : string) (db : DB) :
  authenticate email0 pw db = None
  <-> (forall u, In u (users db) -> ~ credentials_match email0 pw u).
Proof.
  unfold authenticate. split.
  - destruct (filter _ _) as [|x l] eqn:Hf; [|discriminate].
    intros _ u Hin Hm. apply credentials_match_bool in Hm.
    assert (In u []) as H; [|contradiction].
    rewrite <- Hf. apply filter_In. now split.
  - intros H. rewrite filter_none; [reflexivity|].
    intros u Hin. apply not_true_is_false. intros Hm.
    apply credentials_match_bool in Hm. now apply (H u).
Qed.

Lemma authenticate_some (email0 pw : string) (db : DB) (i : Z) (r : string) :
  db_ok db ->
  (authenticate email0 pw db = Some (i, r)
   <-> exists u, In u (users db) /\ credentials_match email0 pw u
                 /\ uid u = i /\ role u = r).
Proof.
  intros (He & _). unfold authenticate. split.
  - destruct (filter _ _) as [|x l] eqn:Hf; [discriminate|].
    intros [= <- <-]. exists x.
    assert (In x (x :: l)) as H by now left.
    rewrite <- Hf in H. apply filter_In in H as [Hin Hm].
    apply credentials_match_bool in Hm. auto.
  - intros [u (Hin & Hm & <- & <-)].
    rewrite (filter_unique_key email _ (users db) u); auto.
    + now apply credentials_match_bool.
    + intros x _ Hx. apply credentials_match_bool in Hx.
      destruct Hx as [Hx _], Hm as [Hm _]. congruence.
Qed.

(** C2.  [authenticate] returns the id and role of a stored user exactly
    when that user's record matches both the email and the digest of the
    password, and returns [None] exactly when no record does.  An unknown
    email and a wrong password for a known email give the same result,
    and the Login handler answers both with the same message. *)
Theorem authenticate_exactly_on_match (db : DB) :
  db_ok db ->
  (forall email0 pw i r,
      authenticate email0 pw db = Some (i, r)
      <-> exists u, In u (users db) /\ email u = email0
                    /\ password u = hash_password pw
                    /\ uid u = i /\ role u = r)
  /\ (forall email0 pw,
        authenticate email0 pw db = None
        <-> forall u, In u (users db) ->
              ~ (email u = email0 /\ password u = hash_password pw))
  /\ (forall unknown pw1 known pw2 u,
        (forall v, In v (users db) -> email v <> unknown) ->
        In u (users db) -> email u = known ->
        password u <> hash_password pw2 ->
        authenticate unknown pw1 db = None
        /\ authenticate known pw2 db = None
        /\ login unknown pw1 db = (None, [St_error "Invalid credentials"])
        /\ login known pw2 db = (None, [St_error "Invalid credentials"])).
Proof.
  intros Hok. split; [|split].
  - intros email0 pw i r. rewrite (authenticate_some email0 pw db i r Hok).
    unfold credentials_match.
    split.
    + intros [u (Hin & [He Hp] & Hi & Hr)]. exists u. repeat split; assumption.
    + intros [u (Hin & He & Hp & Hi & Hr)]. exists u. repeat split; assumption.
  - intros email0 pw. apply authenticate_none.
  - intros unknown pw1 known pw2 u Hunk Hin Hknown Hpw.
    assert (authenticate unknown pw1 db = None) as H1.
    { apply authenticate_none. intros v Hv [Hm _]. now apply (Hunk v). }
    assert (authenticate known pw2 db = None) as H2.
    { apply authenticate_none. intros v Hv [Hm1 Hm2].
      destruct Hok as (He & _).
      assert (v = u) as ->; [|contradiction].
      assert (filter (fun x => String.eqb (email x) known) (users db) = [u])
        as Hf.
      { apply (filter_unique_key email); auto.
        - now apply String.eqb_eq.
        - intros x _ Hx. apply String.eqb_eq in Hx. congruence. }
      assert (In v [u]) as Hv'.
      { rewrite <- Hf. apply filter_In. split; [assumption|].
        now apply String.eqb_eq. }
      destruct Hv' as [<- | []]. reflexivity. }
    unfold login. rewrite H1, H2. auto.
Qed.

(** ** Registration *)

Lemma sign_up_new (now e pw r : string) (db : DB) :
  truthy e = true -> truthy pw = true -> truthy r = true ->
  (forall u, In u (users db) -> email u <> e) ->
  sign_up now e pw r db
  = mkRun (mkDB (users db
                 ++ [mkUser (users_seq db + 1) e (hash_password pw) r now])%list
                (users_seq db + 1) (photos db) (photos_seq db))
          [St_success "Account created! Please login."] (Returned tt) false.
Proof.
  intros He Hp Hr Hnew.
  assert (existsb (fun u => String.eqb (email u) e) (users db) = false) as Hex.
  { apply not_true_is_false. intros H.
    apply email_stored_iff in H as [u [Hin Hu]]. now apply (Hnew u). }
  unfold sign_up, insert_user. now rewrite He, Hp, Hr, Hex.
Qed.

Lemma sign_up_stored (now e pw r : string) (db : DB) :
  truthy e = true -> truthy pw = true -> truthy r = true ->
  (exists u, In u (users db) /\ email u = e) ->
  sign_up now e pw r db
  = mkRun db [St_error "Email already exists"] (Returned tt) true.
Proof.
  intros He Hp Hr Hold. apply email_stored_iff in Hold.
  unfold sign_up, insert_user. now rewrite He, Hp, Hr, Hold.
Qed.

Lemma seed_on_unlocked (now : string)
    (demo : list (string * string * string)) :
  forall db, seed_on false now demo db = seed now demo db.
Proof.
  induction demo as [|[[e pw] r] demo IH]; intros db; simpl; [reflexivity|].
  unfold insert_user_on.
  destruct (insert_user now e (sha256_hexdigest pw) r db) as [db'|ex];
    [apply IH|].
  destruct ex; auto.
Qed.

(** C3.  Signing up an email that is not stored (all fields non-empty)
    succeeds and stores the user.  Signing the same email up again shows
    "Email already exists", runs to its end and leaves the rows as they
    were, but it also leaves the file write-locked: the refused INSERT's
    transaction is never ended.  An [init_db] that finds the file in that
    state, as the next run of the script does, raises [OperationalError]:
    the failure is not the recoverable one the handler reports.  After the
    first, successful Sign Up the file is not locked and [init_db] runs as
    usual. *)
Theorem duplicate_sign_up_leaves_write_lock
    (now1 now2 now3 e pw1 r1 pw2 r2 : string) (db : DB) :
  truthy e = true -> truthy pw1 = true -> truthy r1 = true ->
  truthy pw2 = true -> truthy r2 = true ->
  (forall u, In u (users db) -> email u <> e) ->
  let first := sign_up now1 e pw1 r1 db in
  let second := sign_up now2 e pw2 r2 (db_after first) in
  ended first = Returned tt
  /\ shown first = [St_success "Account created! Please login."]
  /\ users (db_after first)
     = (users db
        ++ [mkUser (users_seq db + 1) e (hash_password pw1) r1 now1])%list
  /\ write_lock_left first = false
  /\ init_db_on (write_lock_left first) now3 (db_after first)
     = init_db now3 (db_after first)
  /\ ended second = Returned tt
  /\ shown second = [St_error "Email already exists"]
  /\ db_after second = db_after first
  /\ write_lock_left second = true
  /\ init_db_on (write_lock_left second) now3 (db_after second)
     = Raised OperationalError.
Proof.
  intros He Hp1 Hr1 Hp2 Hr2 Hnew first second.
  subst second first.
  rewrite (sign_up_new now1 e pw1 r1 db He Hp1 Hr1 Hnew).
  simpl db_after.
  rewrite (sign_up_stored now2 e pw2 r2 _ He Hp2 Hr2).
  - simpl write_lock_left. simpl db_after. simpl ended. simpl shown.
    simpl users.
    repeat split;
      first [ unfold init_db_on, init_db; apply seed_on_unlocked
            | reflexivity ].
  - eexists. split; [simpl; apply in_or_app; right; left; reflexivity|].
    reflexivity.
Qed.

(** ** Saving a photo and reading it back *)

Lemma join_head_not_empty (x : string) (l : list string) :
  x <> "" -> truthy (join "," (x :: l)) = true.
Proof.
  intros Hx. destruct (join "," (x :: l)) eqn:Hj; [|reflexivity].
  apply join_empty in Hj; [|discriminate]. congruence.
Qed.

(** The ids come back from the [people] column as they were saved. *)
Lemma people_ids_roundtrip (people : list Z) :
  people_ids_of (people_str_of people) = Returned people.
Proof.
  destruct people as [|i people]; [reflexivity|].
  unfold people_ids_of, people_str_of.
  change (map py_str (i :: people)) with (py_str i :: map py_str people).
  rewrite join_head_not_empty by apply py_str_not_empty.
  change (py_str i :: map py_str people) with (map py_str (i :: people)).
  rewrite split_join.
  - apply ints_py_str.
  - discriminate.
  - apply Forall_forall. intros t Ht.
    apply in_map_iff in Ht as [n [<- _]]. apply py_str_no_comma.
Qed.

(** The tags come back from the [tags] column when none holds a comma and
    the list is not the one empty tag. *)
Lemma tags_roundtrip (tags : list string) :
  Forall (fun t => has_char comma t = false) tags -> tags <> [""] ->
  tags_of (tags_str_of tags) = tags.
Proof.
  intros Hall Hne. destruct tags as [|t tags]; [reflexivity|].
  unfold tags_of, tags_str_of.
  destruct (join "," (t :: tags)) eqn:Hj.
  - apply join_empty in Hj; [contradiction | discriminate].
  - simpl truthy. cbv iota. rewrite <- Hj.
    apply split_join; [discriminate | assumption].
Qed.

Lemma in_get_all_photos (db : DB) (p : Photo) :
  In p (get_all_photos db) <-> In p (photos db).
Proof.
  unfold get_all_photos. split; apply Permutation_in;
    [|symmetry]; apply order_by_perm.
Qed.

(** C1 (amended).  For a date of the form YYYY-MM-DD and an uploader id
    in the signed 64-bit range (the values the store keeps as given), when
    no tag contains a comma and the tags are not the single empty tag, the
    [get_all_photos] that follows a [save_photo] contains a row with the
    saved title, description, date and location, whose people column reads
    back as the saved ids and whose tags column reads back as the saved
    tags (the same lists, so the same sets). *)
Theorem save_photo_then_get_all_photos
    (now title0 desc0 date0 loc0 : string) (people : list Z)
    (tags : list string) (uploader : Z) (img : string) (db : DB) :
  iso_date date0 = true ->
  fits_int64 uploader ->
  Forall (fun t => has_char comma t = false) tags ->
  tags <> [""] ->
  exists row,
    In row (get_all_photos
              (fst (save_photo now title0 desc0 date0 loc0 people tags
                               uploader img db)))
    /\ title row = title0 /\ desc row = desc0
    /\ date row = date0 /\ loc row = loc0
    /\ people_ids_of (people_str row) = Returned people
    /\ tags_of (tags_str row) = tags.
Proof.
  intros _ _ Hall Hne.
  eexists. split.
  - apply in_get_all_photos. simpl. apply in_or_app. right. left.
    reflexivity.
  - simpl. repeat split; try reflexivity.
    + apply people_ids_roundtrip.
    + now apply tags_roundtrip.
Qed.

(** C9 (amended).  For an uploader id in the signed 64-bit range,
    [save_photo] adds exactly one row to [photos], under an id that no
    earlier row has (the next AUTOINCREMENT value), leaves [users] alone,
    and hands nothing back to its caller: its result is [None], not the
    id.  The row holds the title, description, location, uploader and
    image passed and the time of the insert, and the date passed when
    that has the form YYYY-MM-DD. *)
Theorem save_photo_persists_and_returns_none
    (now title0 desc0 date0 loc0 : string) (people : list Z)
    (tags : list string) (uploader : Z) (img : string) (db : DB) :
  db_ok db ->
  fits_int64 uploader ->
  let result :=
    save_photo now title0 desc0 date0 loc0 people tags uploader img db in
  snd result = None
  /\ users (fst result) = users db
  /\ exists row,
       photos (fst result) = (photos db ++ [row])%list
       /\ pid row = photos_seq db + 1
       /\ ~ In (pid row) (map pid (photos db))
       /\ title row = title0 /\ desc row = desc0
       /\ (iso_date date0 = true -> date row = date0)
       /\ loc row = loc0 /\ uploader_id row = uploader
       /\ image_data row = img /\ created_at row = now.
Proof.
  intros (_ & _ & _ & _ & Hseq) _. simpl.
  split; [reflexivity|]. split; [reflexivity|].
  eexists. split; [reflexivity|]. simpl.
  repeat split; try reflexivity.
  now apply above_all_fresh.
Qed.

(** ** Listing and searching *)

(** C4 (amended).  [get_all_photos] returns every stored photo, and
    [search_photos] every stored photo its [WHERE] clause keeps, each
    once, a later date first and, on one date, a later creation time
    first.  For photos dated 2020-01-01, 2021-06-15 and 2021-06-15
    inserted in that order, both list the two of 2021-06-15 before the
    one of 2020-01-01 and the later-inserted of the two first, provided
    that one's creation time is strictly later. *)
Theorem photos_listed_by_date_then_creation (db : DB) :
  (Permutation (get_all_photos db) (photos db)
   /\ StronglySorted date_desc_created_desc (get_all_photos db))
  /\ (forall query,
        Permutation (search_photos query db)
                    (filter (matches ("%" ++ query ++ "%")) (photos db))
        /\ StronglySorted date_desc_created_desc (search_photos query db))
  /\ (forall p1 p2 p3,
        photos db = [p1; p2; p3] ->
        date p1 = "2020-01-01" -> date p2 = "2021-06-15" ->
        date p3 = "2021-06-15" ->
        String.ltb (created_at p2) (created_at p3) = true ->
        get_all_photos db = [p3; p2; p1]
        /\ forall query,
             Forall (fun p => matches ("%" ++ query ++ "%") p = true)
                    [p1; p2; p3] ->
             search_photos query db = [p3; p2; p1]).
Proof.
  split; [|split].
  - split; [apply order_by_perm | apply order_by_sorted].
  - intros query. split; [apply order_by_perm | apply order_by_sorted].
  - intros p1 p2 p3 Hrows H1 H2 H3 Hlt.
    assert (order_by_date_created [p1; p2; p3] = [p3; p2; p1]) as Hord.
    { unfold String.ltb in Hlt.
      destruct (String.compare (created_at p2) (created_at p3)) eqn:Hc;
        try discriminate.
      apply string_compare_gt_lt in Hc.
      assert (listed_before p2 p3 = false) as L23.
      { unfold listed_before, String.leb. now rewrite H2, H3, Hc. }
      assert (listed_before p1 p3 = false) as L13.
      { unfold listed_before. now rewrite H1, H3. }
      assert (listed_before p1 p2 = false) as L12.
      { unfold listed_before. now rewrite H1, H2. }
      unfold order_by_date_created. cbn [fold_right sorter_insert].
      rewrite L23. cbn [sorter_insert]. now rewrite L13, L12. }
    split.
    + unfold get_all_photos. now rewrite Hrows.
    + intros query Hall. unfold search_photos. rewrite Hrows.
      inversion Hall as [|? ? Hm1 Hall2]; subst.
      inversion Hall2 as [|? ? Hm2 Hall3]; subst.
      inversion Hall3 as [|? ? Hm3 _]; subst.
      cbn [filter]. rewrite Hm1, Hm2, Hm3. exact Hord.
Qed.

Lemma contains_query_spec (query : string) (p : Photo) :
  contains_query query p = true <-> query_in_photo query p.
Proof.
  unfold contains_query, query_in_photo.
  rewrite !orb_true_iff, !contains_nocase_spec.
  split.
  - intros [[[[H | H] | H] | H] | H]; auto.
  - intros [H | [H | [H | [H | H]]]]; auto.
Qed.

(** C5 (amended).  For a query without [%] and [_], [search_photos]
    returns exactly the stored photos in which the query is a substring,
    ASCII letters compared without case, of the title, the description,
    the location, the tags column or the people column; when a single
    stored photo is such, the result is that photo alone. *)
Theorem search_photos_finds_substrings (query : string) (db : DB) :
  has_char "%" query = false -> has_char "_" query = false ->
  Permutation (search_photos query db)
              (filter (contains_query query) (photos db))
  /\ (forall p, In p (search_photos query db)
                <-> In p (photos db) /\ query_in_photo query p)
  /\ (forall p, NoDup (photos db) -> In p (photos db) ->
                query_in_photo query p ->
                (forall p', In p' (photos db) -> query_in_photo query p' ->
                            p' = p) ->
                search_photos query db = [p]).
Proof.
  intros Hp Hu.
  assert (Permutation (search_photos query db)
                      (filter (contains_query query) (photos db))) as Hperm.
  { unfold search_photos.
    rewrite (filter_ext _ _ (matches_contains query Hp Hu)).
    apply order_by_perm. }
  split; [exact Hperm|]. split.
  - intros p. rewrite <- contains_query_spec, <- filter_In.
    split; apply Permutation_in; [|symmetry]; exact Hperm.
  - intros p Hnd Hin Hq Honly.
    assert (filter (contains_query query) (photos db) = [p]) as Hf.
    { apply (filter_unique_key (fun x => x)); auto.
      - now rewrite map_id.
      - now apply contains_query_spec.
      - intros x Hx Hc. apply Honly; [assumption|].
        now apply contains_query_spec. }
    rewrite Hf in Hperm. apply Permutation_sym in Hperm.
    now apply Permutation_length_1_inv in Hperm.
Qed.

(** ** Rendering the Timeline *)

Lemma people_loop_py_str (ids : list Z) (db : DB) :
  people_loop (map py_str ids) db = Returned (existing_emails ids db).
Proof.
  induction ids as [|i ids IH]; simpl; [reflexivity|].
  rewrite py_int_py_str. simpl. rewrite IH. simpl.
  destruct (get_user_by_id i db) as [[e r]|]; reflexivity.
Qed.

Lemma people_emails_of_saved (ids : list Z) (db : DB) :
  people_emails_of (people_str_of ids) db
  = Returned (existing_emails ids db).
Proof.
  destruct ids as [|i ids]; [reflexivity|].
  unfold people_emails_of, people_str_of.
  change (map py_str (i :: ids)) with (py_str i :: map py_str ids).
  rewrite join_head_not_empty by apply py_str_not_empty.
  change (py_str i :: map py_str ids) with (map py_str (i :: ids)).
  rewrite split_join.
  - apply people_loop_py_str.
  - discriminate.
  - apply Forall_forall. intros t Ht.
    apply in_map_iff in Ht as [n [<- _]]. apply py_str_no_comma.
Qed.

Lemma existing_emails_spec (ids : list Z) (db : DB) (e : string) :
  In e (existing_emails ids db)
  <-> exists i r, In i ids /\ get_user_by_id i db = Some (e, r).
Proof.
  unfold existing_emails. rewrite in_flat_map. split.
  - intros [i [Hi He]].
    destruct (get_user_by_id i db) as [[e' r]|] eqn:Hg; [|contradiction].
    destruct He as [<- | []]. eauto.
  - intros [i [r [Hi Hg]]]. exists i. split; [exact Hi|].
    rewrite Hg. now left.
Qed.

(** C6.  For ids in the signed 64-bit range, the range of the ids of the
    store: [get_user_by_id] on an id no user has returns [None]; the
    people loop, run on the column [save_photo] wrote for such ids,
    returns without raising the emails of the ids that have a user, in
    order, and nothing for the others; so an id without a user changes
    nothing but its own absence from the People list. *)
Theorem missing_people_are_dropped (db : DB) :
  (forall i, fits_int64 i ->
             (forall u, In u (users db) -> uid u <> i) ->
             get_user_by_id i db = None)
  /\ (forall ids,
        Forall fits_int64 ids ->
        people_emails_of (people_str_of ids) db
        = Returned (existing_emails ids db))
  /\ (forall ids e,
        In e (existing_emails ids db)
        <-> exists i r, In i ids /\ get_user_by_id i db = Some (e, r))
  /\ (forall before missing after,
        Forall fits_int64 (before ++ missing :: after) ->
        get_user_by_id missing db = None ->
        people_emails_of (people_str_of (before ++ missing :: after)) db
        = people_emails_of (people_str_of (before ++ after)) db).
Proof.
  split; [|split; [|split]].
  - intros i _ Hi. now apply get_user_by_id_none.
  - intros ids _. apply people_emails_of_saved.
  - intros ids e. apply existing_emails_spec.
  - intros before missing after _ Hmiss.
    rewrite !people_emails_of_saved. f_equal.
    unfold existing_emails. rewrite !flat_map_app. simpl.
    now rewrite Hmiss.
Qed.

Lemma timeline_photo_needs_uploader (photo : Photo) (db : DB)
    (out : list Element) :
  timeline_photo photo db = (out, Returned tt) ->
  exists e r, get_user_by_id (uploader_id photo) db = Some (e, r).
Proof.
  unfold timeline_photo.
  destruct (people_emails_of _ _); [|discriminate].
  destruct (b64decode _); [|discriminate].
  destruct (get_user_by_id _ _) as [[e r]|]; [eauto | discriminate].
Qed.

Lemma timeline_needs_uploaders (db : DB) (photos : list Photo) :
  forall out,
    timeline photos db = (out, Returned tt) ->
    Forall (fun p => exists e r,
                get_user_by_id (uploader_id p) db = Some (e, r)) photos.
Proof.
  induction photos as [|p photos IH]; intros out H; [constructor|].
  simpl in H.
  destruct (timeline_photo p db) as [out1 [[]|ex]] eqn:Hp; [|discriminate].
  destruct (timeline photos db) as [out2 r2] eqn:Hrest.
  injection H as _ ->.
  constructor; [|eapply IH; reflexivity].
  eapply timeline_photo_needs_uploader; eauto.
Qed.

(** C10.  The Timeline loop subscripts the result of [get_user_by_id]
    for the uploader without testing it.  A photo whose [uploader_id] has
    no user makes its turn of the loop raise, whatever the rest of the
    row, and its uploader line is never shown; this is unlike people ids
    without a user, on which the people loop of the same turn returns.
    So the loop, and the page built on it, run to their end only if
    every photo listed has an uploader that exists. *)
Theorem missing_uploader_fails_rendering (db : DB) :
  (forall photo,
      get_user_by_id (uploader_id photo) db = None ->
      exists out ex,
        timeline_photo photo db = (out, Raised ex)
        /\ forall msg, In (St_write msg) out ->
                       String.prefix "**Uploaded by:**" msg = false)
  /\ (forall photo ids,
        get_user_by_id (uploader_id photo) db = None ->
        people_str photo = people_str_of ids ->
        Forall fits_int64 ids ->
        people_emails_of (people_str photo) db
        = Returned (existing_emails ids db)
        /\ snd (timeline_photo photo db) <> Returned tt)
  /\ (forall photos out,
        timeline photos db = (out, Returned tt) ->
        Forall (fun p => exists e r,
                    get_user_by_id (uploader_id p) db = Some (e, r)) photos)
  /\ (forall search_query out,
        timeline_view search_query db = (out, Returned tt) ->
        Forall (fun p => exists e r,
                    get_user_by_id (uploader_id p) db = Some (e, r))
               (if truthy search_query then search_photos search_query db
                else get_all_photos db)).
Proof.
  assert (forall photo,
             get_user_by_id (uploader_id photo) db = None ->
             exists out ex,
               timeline_photo photo db = (out, Raised ex)
               /\ forall msg, In (St_write msg) out ->
                              String.prefix "**Uploaded by:**" msg = false)
    as Hfails.
  { intros photo Hup. unfold timeline_photo. rewrite Hup.
    destruct (people_emails_of _ _) as [people_emails|ex].
    - destruct (b64decode _) as [img_bytes|ex].
      + eexists. exists TypeError. split; [reflexivity|].
        intros msg Hin. simpl in Hin.
        destruct Hin as [H | [H | [H | [H | [H | [H | []]]]]]];
          try discriminate; injection H as <-; reflexivity.
      + eexists. exists ex. split; [reflexivity|].
        intros msg [H | []]. discriminate.
    - exists [], ex. split; [reflexivity|]. intros msg []. }
  split; [exact Hfails|]. split; [|split].
  - intros photo ids Hup Hpeople _. split.
    + rewrite Hpeople. apply people_emails_of_saved.
    + destruct (Hfails photo Hup) as [out [ex [Heq _]]].
      rewrite Heq. discriminate.
  - intros photos out. apply timeline_needs_uploaders.
  - intros search_query out. unfold timeline_view.
    apply timeline_needs_uploaders.
Qed.

(** ** Uploading *)

(** [resize_image] raises exactly when one of its three steps does. *)
Lemma resize_image_raises (image : string) (ex : PyExc) :
  resize_image image = Raised ex
  <-> Image_open image = Raised ex
      \/ (exists img, Image_open image = Returned img
                      /\ thumbnail img max_size = Raised ex)
      \/ (exists img small, Image_open image = Returned img
                            /\ thumbnail img max_size = Returned small
                            /\ save_JPEG small = Raised ex).
Proof.
  unfold resize_image.
  destruct (Image_open image) as [img|ex1] eqn:Ho; simpl.
  - destruct (thumbnail img max_size) as [small|ex2] eqn:Ht; simpl.
    + split.
      * intros H. right. right. exists img, small.
        split; [reflexivity|]. split; [exact Ht | exact H].
      * intros [H | [[i [H1 H2]] | [i [sm [H1 [H2 H3]]]]]].
        -- discriminate.
        -- injection H1 as <-. rewrite Ht in H2. discriminate.
        -- injection H1 as <-. rewrite Ht in H2. injection H2 as <-.
           exact H3.
    + split.
      * intros H. right. left. exists img.
        split; [reflexivity|]. rewrite Ht. injection H as <-. reflexivity.
      * intros [H | [[i [H1 H2]] | [i [sm [H1 [H2 _]]]]]].
        -- discriminate.
        -- injection H1 as <-. rewrite Ht in H2. injection H2 as <-.
           reflexivity.
        -- injection H1 as <-. rewrite Ht in H2. discriminate.
  - split; [intros H; left; injection H as <-; reflexivity|].
    intros [H | [H | H]].
    + injection H as <-. reflexivity.
    + destruct H as [i [H _]]. discriminate.
    + destruct H as [i [sm [H _]]]. discriminate.
Qed.

(** C8 (amended).  When [resize_image] raises on the uploaded bytes
    (whether in [Image.open], in [thumbnail] or in the JPEG [save]),
    nothing in the Upload Photo handler catches it and the exception
    leaves the handler uncaught: nothing is saved, and the handler shows
    no error element. *)
Theorem failed_resize_leaves_upload_uncaught (now : string)
    (session_user_id : Z) (f : UploadForm) (db : DB) (image_bytes : string)
    (ex : PyExc) :
  f_uploaded_file f = Some image_bytes ->
  resize_image image_bytes = Raised ex ->
  ended (upload_photo now session_user_id f db) = Raised ex
  /\ db_after (upload_photo now session_user_id f db) = db
  /\ write_lock_left (upload_photo now session_user_id f db) = false
  /\ (forall msg,
        ~ In (St_error msg) (shown (upload_photo now session_user_id f db))).
Proof.
  intros Hfile Hres.
  unfold upload_photo. rewrite Hfile, Hres. simpl.
  repeat split; auto.
  intros msg. destruct (f_is_collage f); simpl.
  - intros [H | []]. discriminate.
  - intros [].
Qed.

(** ** The size [resize_image] asks for *)

Lemma round_div_bounds (a b : Z) :
  0 < b -> 0 <= a ->
  2 * b * round_div a b <= 2 * a + b < 2 * b * (round_div a b + 1).
Proof.
  intros Hb Ha. unfold round_div.
  pose proof (Z.div_mod (2 * a + b) (2 * b) ltac:(lia)) as Hdm.
  pose proof (Z.mod_pos_bound (2 * a + b) (2 * b) ltac:(lia)) as Hm.
  lia.
Qed.

Lemma thumbnail_size_fits (w h bw bh : Z) :
  0 < w -> 0 < h -> 0 < bw -> 0 < bh ->
  let s := thumbnail_size (w, h) (bw, bh) in
  0 < fst s <= bw /\ 0 < snd s <= bh
  /\ fst s <= w /\ snd s <= h
  /\ (w <= bw -> h <= bh -> s = (w, h))
  /\ Z.abs (fst s * h - w * snd s) < Z.max w h.
Proof.
  intros Hw Hh Hbw Hbh. unfold thumbnail_size.
  destruct (Z.leb_spec w bw) as [Hwb | Hwb];
    [destruct (Z.leb_spec h bh) as [Hhb | Hhb]|]; simpl.
  - replace (w * h - w * h) with 0 by lia. repeat split; try lia.
  - destruct (Z.leb_spec (h * bw) (w * bh)) as [Hr | Hr]; [nia|].
    pose proof (round_div_bounds (w * bh) h Hh ltac:(nia)) as Hq.
    set (q := round_div (w * bh) h) in *.
    assert (q <= w) by nia. assert (q <= bw) by nia.
    assert (Z.abs (Z.max 1 q * h - w * bh) < h) as Habs.
    { destruct (Z.max_spec 1 q) as [[Hlt ->] | [Hge ->]];
        apply Z.abs_lt; split; nia. }
    simpl. repeat split; try lia.
  - destruct (Z.leb_spec (h * bw) (w * bh)) as [Hr | Hr].
    + pose proof (round_div_bounds (h * bw) w Hw ltac:(nia)) as Hq.
      set (q := round_div (h * bw) w) in *.
      assert (q <= h) by nia. assert (q <= bh) by nia.
      assert (Z.abs (bw * h - w * Z.max 1 q) < w) as Habs.
      { destruct (Z.max_spec 1 q) as [[Hlt ->] | [Hge ->]];
          apply Z.abs_lt; split; nia. }
      simpl. repeat split; try lia.
    + assert (bh < h) by nia.
      pose proof (round_div_bounds (w * bh) h Hh ltac:(nia)) as Hq.
      set (q := round_div (w * bh) h) in *.
      assert (q <= w) by nia. assert (q <= bw) by nia.
      assert (Z.abs (Z.max 1 q * h - w * bh) < h) as Habs.
      { destruct (Z.max_spec 1 q) as [[Hlt ->] | [Hge ->]];
          apply Z.abs_lt; split; nia. }
      simpl. repeat split; try lia.
Qed.

(** C7.  [resize_image] asks [thumbnail] for the box (800, 800).  With the
    thumbnail size of the specification, an image of positive width and
    height comes out with neither side above 800 and neither side larger
    than it was; one that already fits keeps its size; otherwise the sides
    keep their proportion up to the rounding of one side (they are within
    one unit of proportional).  2000 x 1000 becomes 800 x 400, and
    400 x 300 stays 400 x 300.  When [img.thumbnail] sizes its result in
    this way, the image [resize_image] re-encodes has these properties. *)
Theorem resize_image_size_within_800 :
  (forall w h, 0 < w -> 0 < h ->
     let s := thumbnail_size (w, h) max_size in
     0 < fst s <= 800 /\ 0 < snd s <= 800
     /\ fst s <= w /\ snd s <= h
     /\ (w <= 800 -> h <= 800 -> s = (w, h))
     /\ Z.abs (fst s * h - w * snd s) < Z.max w h)
  /\ thumbnail_size (2000, 1000) max_size = (800, 400)
  /\ thumbnail_size (400, 300) max_size = (400, 300)
  /\ ((forall img box small,
         thumbnail img box = Returned small ->
         Image_size small = thumbnail_size (Image_size img) box) ->
      forall image img small,
        Image_open image = Returned img ->
        0 < fst (Image_size img) -> 0 < snd (Image_size img) ->
        thumbnail img max_size = Returned small ->
        resize_image image = save_JPEG small
        /\ fst (Image_size small) <= 800 /\ snd (Image_size small) <= 800
        /\ fst (Image_size small) <= fst (Image_size img)
        /\ snd (Image_size small) <= snd (Image_size img)
        /\ (fst (Image_size img) <= 800 -> snd (Image_size img) <= 800 ->
            Image_size small = Image_size img)).
Proof.
  split; [|split; [|split]].
  - intros w h Hw Hh. apply (thumbnail_size_fits w h 800 800); lia.
  - reflexivity.
  - reflexivity.
  - intros Hsize image img small Hopen Hw Hh Hthumb.
    split;
      [unfold resize_image; rewrite Hopen; simpl; now rewrite Hthumb|].
    rewrite (Hsize img max_size small Hthumb).
    destruct (Image_size img) as [w h]. simpl in Hw, Hh.
    pose proof (thumbnail_size_fits w h 800 800 Hw Hh ltac:(lia) ltac:(lia))
      as H.
    change (800, 800) with max_size in H. cbv zeta in H.
    destruct H as (H1 & H2 & H3 & H4 & H5 & _).
    cbn [fst snd].
    split; [lia|]. split; [lia|]. split; [lia|]. split; [lia|].
    exact H5.
Qed.

(** ** Seeding *)

Lemma insert_user_appends (now e pw r : string) (db db' : DB) :
  insert_user now e pw r db = Returned db' ->
  users db' = (users db ++ [mkUser (users_seq db + 1) e pw r now])%list
  /\ photos db' = photos db /\ photos_seq db' = photos_seq db
  /\ (forall u, In u (users db) -> email u <> e).
Proof.
  unfold insert_user.
  destruct (existsb _ _) eqn:Hex; [discriminate|].
  intros [= <-]. simpl. repeat split.
  intros u Hin He.
  assert (existsb (fun u => String.eqb (email u) e) (users db) = true) as H
      by (apply email_stored_iff; eauto).
  congruence.
Qed.

Lemma insert_user_stored (now e pw r : string) (db : DB) :
  (exists u, In u (users db) /\ email u = e) ->
  insert_user now e pw r db = Raised IntegrityError.
Proof.
  intros H. apply email_stored_iff in H. unfold insert_user. now rewrite H.
Qed.

(** What the seeding loop does to a database: it only appends users, each
    taken from the list, and touches nothing else. *)
Lemma seed_appends (now : string) (demo : list (string * string * string)) :
  forall db, exists added,
    seed now demo db
    = Returned (mkDB (users db ++ added)
                     (users_seq db + Z.of_nat (List.length added))
                     (photos db) (photos_seq db))
    /\ (List.length added <= List.length demo)%nat
    /\ Forall (fun u => (forall v, In v (users db) -> email v <> email u)
                        /\ exists pw, In (email u, pw, role u) demo
                                      /\ password u = sha256_hexdigest pw)
              added
    /\ (forall e pw r, In (e, pw, r) demo ->
                       exists u, In u (users db ++ added)%list /\ email u = e).
Proof.
  induction demo as [|[[e pw] r] demo IH]; intros db; simpl.
  - exists []. rewrite app_nil_r, Z.add_0_r. destruct db; simpl.
    split; [reflexivity|]. split; [lia|]. split; [constructor|].
    intros e pw r [].
  - destruct (insert_user now e (sha256_hexdigest pw) r db) as [db1|ex] eqn:Hi.
    + destruct (insert_user_appends _ _ _ _ _ _ Hi) as (Hu & Hp & Hs & Hnew).
      assert (users_seq db1 = users_seq db + 1) as Hseq.
      { unfold insert_user in Hi. destruct (existsb _ _); [discriminate|].
        now injection Hi as <-. }
      destruct (IH db1) as [added (Hseed & Hlen & Hall & Hstored)].
      exists (mkUser (users_seq db + 1) e (sha256_hexdigest pw) r now :: added).
      rewrite Hseed, Hu, Hp, Hs, Hseq, <- app_assoc. simpl app.
      split; [|split; [|split]].
      * f_equal. f_equal. cbn [List.length]. lia.
      * simpl. lia.
      * constructor.
        -- simpl. split; [exact Hnew|]. exists pw. split; [now left | reflexivity].
        -- eapply Forall_impl; [|exact Hall].
           intros u [Hfresh [pw' [Hin Hpw]]]. split.
           ++ intros v Hv. apply Hfresh. rewrite Hu. apply in_or_app. now left.
           ++ exists pw'. split; [now right | exact Hpw].
      * intros e' pw' r' [[= <- <- <-] | Hin].
        -- eexists. split; [apply in_or_app; right; left; reflexivity|].
           reflexivity.
        -- destruct (Hstored e' pw' r' Hin) as [u [Hu' He']].
           exists u. split; [|assumption].
           rewrite Hu, <- app_assoc in Hu'. exact Hu'.
    + rewrite (insert_user_raises _ _ _ _ _ _ Hi).
      destruct (IH db) as [added (Hseed & Hlen & Hall & Hstored)].
      exists added. rewrite Hseed.
      split; [reflexivity|]. split; [simpl; lia|]. split.
      * eapply Forall_impl; [|exact Hall].
        intros u [Hfresh [pw' [Hin Hpw]]]. split; [exact Hfresh|].
        exists pw'. split; [now right | exact Hpw].
      * intros e' pw' r' [[= <- <- <-] | Hin]; [|eauto].
        unfold insert_user in Hi.
        destruct (existsb _ _) eqn:Hex; [|discriminate].
        apply email_stored_iff in Hex as [u [Hu He]].
        exists u. split; [apply in_or_app; now left | assumption].
Qed.

Lemma seed_all_stored (now : string) (demo : list (string * string * string)) :
  forall db,
    (forall e pw r, In (e, pw, r) demo ->
                    exists u, In u (users db) /\ email u = e) ->
    seed now demo db = Returned db.
Proof.
  induction demo as [|[[e pw] r] demo IH]; intros db H; simpl; [reflexivity|].
  rewrite insert_user_stored by (apply (H e pw r); now left).
  apply IH. intros e' pw' r' Hin. apply (H e' pw' r'). now right.
Qed.


(** X2.  [init_db] is idempotent: run again, at any later time, on the
    database it has produced, it changes nothing. *)
Theorem init_db_idempotent (now1 now2 : string) (db db1 : DB) :
  init_db now1 db = Returned db1 ->
  init_db now2 db1 = Returned db1.
Proof.
  intros H1. unfold init_db in *.
  destruct (seed_appends now1 demo_users db) as [added (Hseed & _ & _ & Hst)].
  rewrite Hseed in H1. injection H1 as <-.
  apply seed_all_stored. exact Hst.
Qed.

(** X3.  On a database that keeps the schema's guarantees and where a demo
    email is not stored yet, [init_db] makes that demo account usable:
    logging in with the demo password gives a user with the demo role. *)
Theorem demo_account_can_log_in (now e pw r : string) (db db1 : DB) :
  db_ok db ->
  In (e, pw, r) demo_users ->
  (forall u, In u (users db) -> email u <> e) ->
  init_db now db = Returned db1 ->
  exists i, authenticate e pw db1 = Some (i, r)
            /\ get_user_by_id i db1 = Some (e, r).
Proof.
  intros Hok Hdemo Hnew Hinit.
  destruct (init_db_ok now db Hok) as [db' [Hinit' Hok1]].
  rewrite Hinit in Hinit'. injection Hinit' as <-.
  unfold init_db in Hinit.
  destruct (seed_appends now demo_users db) as [added (Hseed & _ & Hall & Hst)].
  rewrite Hseed in Hinit. injection Hinit as <-.
  destruct (Hst e pw r Hdemo) as [u [Hin He]].
  simpl users in *.
  apply in_app_or in Hin as [Hin | Hin]; [now elim (Hnew u)|].
  rewrite Forall_forall in Hall.
  destruct (Hall u Hin) as [_ [pw' [Hd Hpw]]].
  assert (pw' = pw /\ role u = r) as [-> Hr].
  { rewrite He in Hd. unfold demo_users in Hdemo, Hd. simpl in Hdemo, Hd.
    destruct Hdemo as [H1 | [H1 | [H1 | []]]];
      destruct Hd as [H2 | [H2 | [H2 | []]]];
      inversion H1; subst; inversion H2; split; congruence. }
  exists (uid u). split.
  - apply authenticate_some; [exact Hok1|].
    exists u. simpl. unfold credentials_match.
    repeat split; auto. apply in_or_app. now right.
  - rewrite <- He, <- Hr. apply get_user_by_id_found; [exact Hok1|].
    simpl. apply in_or_app. now right.
Qed.

(** ** Signing up, then logging in *)

Lemma sign_up_appends (now e pw r : string) (db : DB) :
  exists added,
    users (db_after (sign_up now e pw r db)) = (users db ++ added)%list
    /\ photos (db_after (sign_up now e pw r db)) = photos db.
Proof.
  unfold sign_up.
  destruct (truthy e && truthy pw && truthy r);
    [|exists []; now rewrite app_nil_r].
  destruct (insert_user now e (hash_password pw) r db) as [db1|ex] eqn:Hi.
  - destruct (insert_user_appends _ _ _ _ _ _ Hi) as (Hu & Hp & _).
    simpl. eauto.
  - destruct ex; exists []; now rewrite app_nil_r.
Qed.

(** X4.  After a successful Sign Up the new user can log in: with the
    password just chosen [authenticate] returns the new id and the chosen
    role, the Login handler opens a session for them, and
    [get_user_by_id] resolves the new id to the email and role. *)
Theorem sign_up_then_login (now e pw r : string) (db : DB) :
  db_ok db ->
  truthy e = true -> truthy pw = true -> truthy r = true ->
  (forall u, In u (users db) -> email u <> e) ->
  let db' := db_after (sign_up now e pw r db) in
  authenticate e pw db' = Some (users_seq db + 1, r)
  /\ login e pw db' = (Some (users_seq db + 1, e, r), [])
  /\ get_user_by_id (users_seq db + 1) db' = Some (e, r).
Proof.
  intros Hok He Hp Hr Hnew db'.
  assert (db_ok db') as Hok' by now apply sign_up_ok.
  assert (In (mkUser (users_seq db + 1) e (hash_password pw) r now)
             (users db')) as Hin.
  { subst db'. rewrite (sign_up_new now e pw r db He Hp Hr Hnew). simpl.
    apply in_or_app. right. now left. }
  assert (authenticate e pw db' = Some (users_seq db + 1, r)) as Hauth.
  { apply authenticate_some; [exact Hok'|].
    eexists. split; [exact Hin|]. unfold credentials_match. simpl. auto. }
  split; [exact Hauth|]. split.
  - unfold login. now rewrite Hauth.
  - apply (get_user_by_id_found db' _ Hok' Hin).
Qed.

(** X5.  A Sign Up, whether it succeeds or not, leaves every other login
    as it was: credentials accepted before are accepted after, with the
    same id and role, and credentials for another email that were refused
    stay refused. *)
Theorem sign_up_keeps_other_logins (now e pw r e' pw' : string) (db : DB) :
  e' <> e ->
  authenticate e' pw' (db_after (sign_up now e pw r db))
  = authenticate e' pw' db.
Proof.
  intros Hne.
  unfold sign_up.
  destruct (truthy e && truthy pw && truthy r); [|reflexivity].
  destruct (insert_user now e (hash_password pw) r db) as [db1|ex] eqn:Hi;
    [|destruct ex; reflexivity].
  destruct (insert_user_appends _ _ _ _ _ _ Hi) as (Hu & _).
  simpl. unfold authenticate. rewrite Hu, filter_app. simpl.
  apply String.eqb_neq in Hne. rewrite String.eqb_sym in Hne.
  rewrite Hne. simpl. now rewrite app_nil_r.
Qed.

(** ** More on searching *)

Lemma filter_all {A} (f : A -> bool) (l : list A) :
  (forall x, In x l -> f x = true) -> filter f l = l.
Proof.
  induction l as [|x l IH]; intros H; simpl; [reflexivity|].
  rewrite (H x) by now left. f_equal. apply IH. intros y Hy. apply H.
  now right.
Qed.

Lemma like_two_percents (s : string) : like "%%" s = true.
Proof.
  rewrite like_percent, like_percent_only. reflexivity.
Qed.

(** X6.  The empty query keeps every photo: [search_photos ""] is
    [get_all_photos]. *)
Theorem search_photos_empty_query (db : DB) :
  search_photos "" db = get_all_photos db.
Proof.
  unfold search_photos, get_all_photos. simpl append.
  rewrite filter_all; [reflexivity|].
  intros p _. unfold matches. now rewrite like_two_percents.
Qed.

Lemma sorter_insert_filter (f : Photo -> bool) (x : Photo) (l : list Photo) :
  StronglySorted date_desc_created_desc l ->
  filter f (sorter_insert x l)
  = if f x then sorter_insert x (filter f l) else filter f l.
Proof.
  induction 1 as [|y l Hs IH Hy]; simpl.
  - destruct (f x); reflexivity.
  - destruct (listed_before x y) eqn:Hxy.
    + simpl. destruct (f x) eqn:Hfx; [|reflexivity].
      destruct (f y) eqn:Hfy; simpl; [now rewrite Hxy|].
      destruct (filter f l) as [|z t] eqn:Hf; [reflexivity|].
      simpl.
      assert (In z (filter f l)) as Hz by (rewrite Hf; now left).
      apply filter_In in Hz as [Hz _].
      rewrite Forall_forall in Hy. specialize (Hy z Hz).
      apply listed_before_spec in Hy.
      now rewrite (listed_before_trans x y z Hxy Hy).
    + simpl. rewrite IH.
      destruct (f x) eqn:Hfx; destruct (f y) eqn:Hfy; simpl;
        rewrite ?Hxy; reflexivity.
Qed.

Lemma order_by_filter (f : Photo -> bool) (rows : list Photo) :
  order_by_date_created (filter f rows)
  = filter f (order_by_date_created rows).
Proof.
  induction rows as [|x rows IH]; simpl; [reflexivity|].
  rewrite sorter_insert_filter by apply order_by_sorted.
  destruct (f x); simpl; now rewrite IH.
Qed.

(** X7.  A search lists the photos in the order [get_all_photos] lists
    them: its result is that list with the rows the [WHERE] clause rejects
    taken out. *)
Theorem search_photos_filters_get_all_photos (query : string) (db : DB) :
  search_photos query db
  = filter (matches ("%" ++ query ++ "%")) (get_all_photos db).
Proof. apply order_by_filter. Qed.

Lemma tolower_idempotent (c : ascii) : tolower (tolower c) = tolower c.
Proof. destruct c as [[] [] [] [] [] [] [] []]; reflexivity. Qed.

Lemma tolower_keeps_wildcards (c : ascii) :
  Ascii.eqb (tolower c) "%" = Ascii.eqb c "%"
  /\ Ascii.eqb (tolower c) "_" = Ascii.eqb c "_".
Proof. destruct c as [[] [] [] [] [] [] [] []]; split; reflexivity. Qed.

Lemma lower_append (a b : string) : lower (a ++ b) = lower a ++ lower b.
Proof.
  induction a as [|c a IH]; simpl; [reflexivity|]. now rewrite IH.
Qed.

(** [LIKE] does not see the ASCII case of the pattern or of the text. *)
Lemma like_lower (pat : string) :
  forall s, like (lower pat) (lower s) = like pat s.
Proof.
  induction pat as [|c pat IH]; intros s.
  - destruct s; reflexivity.
  - change (lower (String c pat)) with (String (tolower c) (lower pat)).
    destruct (tolower_keeps_wildcards c) as [Hp Hu].
    destruct (Ascii.eqb c "%") eqn:Hc.
    + apply Ascii.eqb_eq in Hc, Hp. rewrite Hp, Hc.
      induction s as [|c2 s IHs].
      * simpl lower. rewrite !like_percent, <- (IH ""). reflexivity.
      * change (lower (String c2 s)) with (String (tolower c2) (lower s)).
        rewrite (like_percent (lower pat) (String (tolower c2) (lower s))).
        rewrite (like_percent pat (String c2 s)).
        rewrite IHs, <- (IH (String c2 s)). reflexivity.
    + destruct s as [|c2 s]; simpl; rewrite Hp, Hc; [reflexivity|].
      rewrite Hu, IH. unfold eq_nocase. now rewrite !tolower_idempotent.
Qed.

Lemma like_lower_pattern (pat s : string) : like (lower pat) s = like pat s.
Proof.
  rewrite <- (like_lower pat s), <- (like_lower (lower pat) s).
  f_equal. clear s. induction pat as [|c pat IH]; simpl; [reflexivity|].
  now rewrite tolower_idempotent, IH.
Qed.

(** X8.  Searching ignores ASCII case, in the query (wildcards included)
    and in the stored text: a query and its lower-case form find the same
    photos in the same order, and whether a row is kept depends only on
    the lower-case form of its five searched columns. *)
Theorem search_photos_ignores_case (query : string) (db : DB) :
  search_photos (lower query) db = search_photos query db
  /\ (forall p q,
         lower (title p) = lower (title q) ->
         lower (desc p) = lower (desc q) ->
         lower (loc p) = lower (loc q) ->
         lower (tags_str p) = lower (tags_str q) ->
         lower (people_str p) = lower (people_str q) ->
         matches ("%" ++ query ++ "%") p = matches ("%" ++ query ++ "%") q).
Proof.
  split.
  - unfold search_photos. f_equal. apply filter_ext. intros p.
    unfold matches.
    change ("%" ++ lower query ++ "%") with (lower "%" ++ lower query ++ lower "%").
    rewrite <- !lower_append. now rewrite !like_lower_pattern.
  - intros p q Ht Hd Hl Htg Hp. unfold matches.
    rewrite <- (like_lower _ (title p)), <- (like_lower _ (desc p)),
      <- (like_lower _ (loc p)), <- (like_lower _ (tags_str p)),
      <- (like_lower _ (people_str p)).
    rewrite Ht, Hd, Hl, Htg, Hp. now rewrite !like_lower.
Qed.

(** X9.  A photo saved with a date of the form YYYY-MM-DD that is later
    than the date of every stored photo (and an uploader id in the signed
    64-bit range) is the first one [get_all_photos] lists afterwards. *)
Theorem newest_date_is_listed_first
    (now title0 desc0 date0 loc0 : string) (people : list Z)
    (tags : list string) (uploader : Z) (img : string) (db : DB) :
  iso_date date0 = true ->
  fits_int64 uploader ->
  Forall (fun p => String.ltb (date p) date0 = true) (photos db) ->
  exists rest,
    get_all_photos (fst (save_photo now title0 desc0 date0 loc0 people tags
                                    uploader img db))
    = mkPhoto (photos_seq db + 1) title0 desc0 date0 loc0
              (people_str_of people) (tags_str_of tags) uploader img now
      :: rest
    /\ Permutation rest (photos db).
Proof.
  intros _ _ Hlater. simpl fst.
  set (new := mkPhoto (photos_seq db + 1) title0 desc0 date0 loc0
                      (people_str_of people) (tags_str_of tags) uploader
                      img now).
  unfold get_all_photos, insert_photo. simpl photos. fold new.
  assert (forall l, Forall (fun p => String.ltb (date p) date0 = true) l ->
            order_by_date_created (l ++ [new])
            = new :: order_by_date_created l) as Hfront.
  { induction l as [|y l IH]; intros Hl; [reflexivity|].
    inversion Hl as [|? ? Hy Hl']; subst.
    simpl. rewrite (IH Hl'). simpl.
    assert (listed_before y new = false) as Hyn.
    { unfold listed_before, String.ltb in *. simpl date.
      destruct (String.compare (date y) date0); congruence. }
    now rewrite Hyn. }
  rewrite (Hfront _ Hlater). eexists. split; [reflexivity|].
  apply order_by_perm.
Qed.

(** ** What the upload form hands to [save_photo] *)

Lemma split_pieces_without_sep (sep : ascii) (s : string) :
  Forall (fun t => has_char sep t = false) (split sep s).
Proof.
  induction s as [|c s IH]; simpl.
  - repeat constructor.
  - destruct (Ascii.eqb c sep) eqn:Hc.
    + constructor; [reflexivity | exact IH].
    + destruct (split sep s) as [|w ws].
      * repeat constructor. simpl. now rewrite Hc.
      * inversion IH as [|? ? Hw Hws]; subst.
        constructor; [|exact Hws]. simpl. now rewrite Hc, Hw.
Qed.

Lemma lstrip_without_char (c : ascii) (s : string) :
  has_char c s = false -> has_char c (lstrip s) = false.
Proof.
  induction s as [|a s IH]; simpl; [reflexivity|].
  intros H. destruct (isspace a); [|exact H].
  apply orb_false_iff in H as [_ H]. now apply IH.
Qed.

Lemma rstrip_without_char (c : ascii) (s : string) :
  has_char c s = false -> has_char c (rstrip s) = false.
Proof.
  induction s as [|a s IH]; simpl; [reflexivity|].
  intros H. apply orb_false_iff in H as [Ha Hs]. specialize (IH Hs).
  destruct (rstrip s) as [|b r].
  - destruct (isspace a); simpl; [reflexivity | now rewrite Ha].
  - simpl in *. now rewrite Ha, IH.
Qed.

Lemma strip_without_char (c : ascii) (s : string) :
  has_char c s = false -> has_char c (strip s) = false.
Proof.
  intros H. unfold strip. now apply rstrip_without_char, lstrip_without_char.
Qed.

Lemma tags_list_of_without_comma (tags : string) :
  Forall (fun t => has_char comma t = false) (tags_list_of tags).
Proof.
  unfold tags_list_of. destruct (truthy tags); [|constructor].
  apply Forall_forall. intros t Ht.
  apply in_map_iff in Ht as [piece [<- Hin]].
  apply strip_without_char.
  pose proof (split_pieces_without_sep comma tags) as H.
  rewrite Forall_forall in H. now apply H.
Qed.

(** X10.  The tags the upload form passes to [save_photo] never contain a
    comma, whatever is typed in the Tags field; they are read back from the
    stored column exactly as passed, except when they are the single empty
    tag (a field of blanks only), which is read back as no tag. *)
Theorem form_tags_roundtrip (tags : string) :
  Forall (fun t => has_char comma t = false) (tags_list_of tags)
  /\ (tags_list_of tags <> [""] ->
      tags_of (tags_str_of (tags_list_of tags)) = tags_list_of tags)
  /\ (tags_list_of tags = [""] ->
      tags_of (tags_str_of (tags_list_of tags)) = []).
Proof.
  split; [apply tags_list_of_without_comma|]. split.
  - intros Hne. apply tags_roundtrip; [apply tags_list_of_without_comma|].
    exact Hne.
  - intros ->. reflexivity.
Qed.

Lemma filter_map_comm {A B} (f : B -> bool) (g : A -> B) (l : list A) :
  filter f (map g l) = map g (filter (fun a => f (g a)) l).
Proof.
  induction l as [|a l IH]; simpl; [reflexivity|].
  destruct (f (g a)); simpl; now rewrite IH.
Qed.

Lemma people_option_found (db : DB) (u : User) :
  db_ok db -> In u (users db) -> people_option (email u) db = Some (uid u).
Proof.
  intros (He & _) Hin. unfold people_option, get_all_users.
  rewrite filter_map_comm. simpl.
  rewrite (filter_unique_key email _ (users db) u); auto.
  - apply String.eqb_refl.
  - intros x _. apply String.eqb_eq.
Qed.

Lemma people_option_user (db : DB) (p : string) (i : Z) :
  people_option p db = Some i -> exists u, In u (users db) /\ uid u = i.
Proof.
  unfold people_option, get_all_users. rewrite filter_map_comm. simpl.
  destruct (rev _) as [|[[i' e] r] t] eqn:Hrev; [discriminate|].
  intros [= <-].
  assert (In (i', e, r) (rev (map (fun u => (uid u, email u, role u))
                              (filter (fun a => String.eqb (email a) p)
                                      (users db))))) as Hin
      by (rewrite Hrev; now left).
  apply in_rev, in_map_iff in Hin as [u [[= <- _ _] Hu]].
  apply filter_In in Hu as [Hu _]. eauto.
Qed.

Lemma existing_emails_of_selected (selected_people : list string) (db : DB) :
  db_ok db ->
  Forall (fun p => exists u, In u (users db) /\ email u = p) selected_people ->
  existing_emails (people_ids_for selected_people db) db = selected_people.
Proof.
  intros Hok Hall.
  induction Hall as [|p l [u [Hin <-]] Hl IH]; [reflexivity|].
  unfold people_ids_for, existing_emails in *. simpl.
  rewrite (people_option_found db u Hok Hin). simpl.
  rewrite (get_user_by_id_found db u Hok Hin). simpl. now rewrite IH.
Qed.

(** X11.  With the schema's guarantees, picking registered emails in the
    People field and saving gives a photo whose People line shows exactly
    the emails picked, in the order picked; and every id the form passes to
    [save_photo] is the id of a stored user. *)
Theorem form_people_roundtrip (selected_people : list string) (db : DB) :
  db_ok db ->
  Forall (fun p => exists u, In u (users db) /\ email u = p) selected_people ->
  existing_emails (people_ids_for selected_people db) db = selected_people
  /\ people_emails_of (people_str_of (people_ids_for selected_people db)) db
     = Returned selected_people
  /\ Forall (fun i => exists u, In u (users db) /\ uid u = i)
            (people_ids_for selected_people db).
Proof.
  intros Hok Hall.
  pose proof (existing_emails_of_selected selected_people db Hok Hall)
    as Hemails.
  split; [exact Hemails|]. split.
  - now rewrite people_emails_of_saved, Hemails.
  - apply Forall_forall. intros i Hi.
    unfold people_ids_for in Hi. apply in_flat_map in Hi as [p [_ Hi]].
    destruct (people_option p db) as [j|] eqn:Hp; [|contradiction].
    destruct Hi as [<- | []]. eapply people_option_user; eauto.
Qed.

(** ** The states the application reaches *)

Lemma user_exists_found (i : Z) (db : DB) :
  user_exists i db -> exists e r, get_user_by_id i db = Some (e, r).
Proof.
  intros [u [Hin Hi]]. unfold get_user_by_id.
  destruct (filter _ _) as [|x l] eqn:Hf; [|eauto].
  assert (In u []) as H; [|contradiction].
  rewrite <- Hf. apply filter_In. split; [assumption | now apply Z.eqb_eq].
Qed.

Lemma user_exists_grows (i : Z) (db db' : DB) (added : list User) :
  users db' = (users db ++ added)%list -> user_exists i db ->
  user_exists i db'.
Proof.
  intros Hu [u [Hin Hi]]. exists u. split; [|exact Hi].
  rewrite Hu. apply in_or_app. now left.
Qed.

Lemma renderable_grows (db db' : DB) (added : list User) (p : Photo) :
  users db' = (users db ++ added)%list -> renderable db p ->
  renderable db' p.
Proof.
  intros Hu (Hup & Hpeople & Himg). split; [|split]; auto.
  eapply user_exists_grows; eauto.
Qed.

Lemma authenticate_user_exists (e pw : string) (db : DB) (i : Z) (r : string) :
  authenticate e pw db = Some (i, r) -> user_exists i db.
Proof.
  unfold authenticate.
  destruct (filter _ _) as [|x l] eqn:Hf; [discriminate|].
  intros [= <- _]. exists x. split; [|reflexivity].
  assert (In x (x :: l)) as H by now left.
  rewrite <- Hf in H. now apply filter_In in H.
Qed.

(** The Timeline runs to its end on rows that are all renderable. *)
Lemma timeline_renderable (db : DB) (rows : list Photo) :
  (forall b, b64decode (b64encode b) = Returned b) ->
  Forall (renderable db) rows ->
  snd (timeline rows db) = Returned tt.
Proof.
  intros Hb64. induction 1 as [|p rows Hp _ IH]; [reflexivity|].
  destruct Hp as (Hup & [ids Hids] & [bytes Himg]).
  destruct (user_exists_found _ _ Hup) as [e [r Hget]].
  simpl. unfold timeline_photo.
  rewrite Hids, people_emails_of_saved, Himg. unfold base64_image.
  rewrite Hb64, Hget.
  destruct (timeline rows db) as [out res]. exact IH.
Qed.

Lemma upload_photo_ok (now : string) (i : Z) (f : UploadForm) (db : DB) :
  db_ok db -> user_exists i db -> Forall (renderable db) (photos db) ->
  db_ok (db_after (upload_photo now i f db))
  /\ users (db_after (upload_photo now i f db)) = users db
  /\ Forall (renderable (db_after (upload_photo now i f db)))
            (photos (db_after (upload_photo now i f db))).
Proof.
  intros Hok Hi Hall. unfold upload_photo.
  destruct (f_uploaded_file f) as [image_bytes|]; [|auto].
  destruct (resize_image image_bytes) as [resized|ex]; [|auto].
  destruct (f_save_clicked f); [|auto].
  simpl db_after. split; [now apply insert_photo_ok|].
  split; [reflexivity|]. simpl photos.
  apply Forall_app. split.
  - eapply Forall_impl; [|exact Hall]. intros p Hp.
    apply (renderable_grows db _ [] p); [simpl; now rewrite app_nil_r | exact Hp].
  - constructor; [|constructor]. split; [|split]; simpl.
    + destruct Hi as [u [Hin Hu]]. exists u. auto.
    + eauto.
    + eauto.
Qed.

Lemma script_run_ok (now : string) (pressed : Interaction)
    (upload : option UploadForm) (st : AppState) :
  app_ok st -> app_ok (fst (script_run now pressed upload st)).
Proof.
  intros (Hok & Hsession & Hall). unfold script_run.
  destruct (seed_appends now demo_users (app_db st))
    as [added (Hseed & _)].
  destruct (init_db_ok now (app_db st) Hok) as [db [Hinit Hdb]].
  rewrite Hinit. unfold init_db in Hinit. rewrite Hseed in Hinit.
  injection Hinit as Hdb_eq.
  assert (users db = (users (app_db st) ++ added)%list) as Hu
      by (now rewrite <- Hdb_eq).
  assert (photos db = photos (app_db st)) as Hp by (now rewrite <- Hdb_eq).
  assert (Forall (renderable db) (photos db)) as Hall'.
  { rewrite Hp. eapply Forall_impl; [|exact Hall].
    intros p. now apply (renderable_grows _ _ added). }
  destruct (session_user st) as [[[user_id user_email] user_role]|] eqn:Hs.
  - assert (user_exists user_id db) as Huser
        by (eapply user_exists_grows; eauto).
    assert (app_ok (mkAppState db None)) as Hout.
    { split; [exact Hdb|]. split; [discriminate | exact Hall']. }
    assert (app_ok (mkAppState db (Some (user_id, user_email, user_role))))
      as Hstay.
    { split; [exact Hdb|]. split; [|exact Hall'].
      intros i e r [= <- _ _]. exact Huser. }
    assert (forall f,
               app_ok (mkAppState (db_after (upload_photo now user_id f db))
                                  (Some (user_id, user_email, user_role))))
      as Hup.
    { intros f.
      destruct (upload_photo_ok now user_id f db Hdb Huser Hall')
        as (H1 & H2 & H3).
      split; [exact H1|]. split; [|exact H3].
      intros i e r [= <- _ _]. simpl.
      destruct Huser as [u [Hin Hi]]. exists u. now rewrite H2. }
    destruct pressed; destruct upload; simpl; auto.
  - assert (app_ok (mkAppState db None)) as Hout.
    { split; [exact Hdb|]. split; [discriminate | exact Hall']. }
    destruct pressed; simpl; auto.
    + unfold login.
      destruct (authenticate email0 pw db) as [[i r]|] eqn:Hauth; simpl; auto.
      split; [exact Hdb|]. split; [|exact Hall'].
      intros i' e' r' [= <- _ _]. simpl.
      eapply authenticate_user_exists; eauto.
    + destruct (sign_up_appends now new_email new_pw new_role db)
        as [added' [Hu' Hp']].
      split; [now apply sign_up_ok|]. split; [discriminate|].
      simpl. rewrite Hp'. eapply Forall_impl; [|exact Hall'].
      intros p. now apply (renderable_grows _ _ added').
Qed.

Lemma reachable_ok (st : AppState) : reachable st -> app_ok st.
Proof.
  induction 1 as [|now pressed upload st _ IH].
  - split; [apply db_ok_empty|]. split; [discriminate | constructor].
  - now apply script_run_ok.
Qed.

(** X12.  Whatever the users do through the pages of the application,
    the database keeps the schema's guarantees, the logged-in user exists,
    and every stored photo has an existing uploader, a people column
    [save_photo] wrote and an image [base64_image] wrote.  Hence, when
    [b64decode] undoes [b64encode], the Timeline runs to its end for every
    search query: the failure on a missing uploader cannot happen. *)
Theorem reachable_states_render (st : AppState) :
  reachable st ->
  app_ok st
  /\ ((forall b, b64decode (b64encode b) = Returned b) ->
      forall search_query,
        snd (timeline_view search_query (app_db st)) = Returned tt).
Proof.
  intros Hreach. pose proof (reachable_ok st Hreach) as Hok.
  split; [exact Hok|]. intros Hb64 search_query.
  destruct Hok as (_ & _ & Hall).
  unfold timeline_view. apply timeline_renderable; [exact Hb64|].
  rewrite Forall_forall in *. intros p Hp. apply Hall.
  destruct (truthy search_query).
  - unfold search_photos in Hp.
    apply (Permutation_in _ (order_by_perm _)) in Hp.
    now apply filter_In in Hp.
  - now apply in_get_all_photos.
Qed.

(** X13.  [save_photo] itself accepts an uploader id (in the signed 64-bit
    range) that no user has; once such a photo is stored, with a date of
    the form YYYY-MM-DD, the unfiltered Timeline does not run to its end
    any more: it raises. *)
Theorem dangling_uploader_breaks_timeline
    (now title0 desc0 date0 loc0 : string) (people : list Z)
    (tags : list string) (uploader : Z) (img : string) (db : DB) :
  iso_date date0 = true ->
  fits_int64 uploader ->
  get_user_by_id uploader db = None ->
  exists ex,
    snd (timeline_view ""
           (fst (save_photo now title0 desc0 date0 loc0 people tags
                            uploader img db)))
    = Raised ex.
Proof.
  intros _ _ Hnone. simpl fst.
  set (db' := insert_photo _ _ _ _ _ _ _ _ _ _).
  destruct (timeline_view "" db') as [out [[]|ex]] eqn:Hview; [|simpl; eauto].
  exfalso. unfold timeline_view in Hview. simpl truthy in Hview.
  apply timeline_needs_uploaders in Hview.
  rewrite Forall_forall in Hview.
  destruct (Hview (mkPhoto (photos_seq db + 1) title0 desc0 date0 loc0
                           (people_str_of people) (tags_str_of tags)
                           uploader img now)) as [e [r Hget]].
  - apply in_get_all_photos. subst db'. simpl. apply in_or_app. right.
    now left.
  - simpl in Hget. subst db'. unfold get_user_by_id in *. simpl in Hget.
    congruence.
Qed.

(** ** The Family Role Map *)

(** Puts the external libraries out of the way of the decision procedures. *)
Ltac without_libraries :=
  clear sha256_hexdigest Image_open thumbnail save_JPEG b64encode b64decode
        st_image Image_size;
  clear Image.

Lemma lookup_role_add (r e r' : string) (m : list (string * list string)) :
  lookup_role r' (role_map_add r e m)
  = if String.eqb r r' then (lookup_role r' m ++ [e])%list
    else lookup_role r' m.
Proof.
  induction m as [|[k es] m IH]; simpl.
  - destruct (String.eqb r r'); reflexivity.
  - destruct (String.eqb_spec k r) as [-> | Hkr]; simpl.
    + destruct (String.eqb r r'); reflexivity.
    + destruct (String.eqb_spec k r') as [-> | Hkr'].
      * apply String.eqb_neq in Hkr. rewrite String.eqb_sym in Hkr.
        now rewrite Hkr.
      * exact IH.
Qed.

Lemma keys_role_map_add (r e : string) (m : list (string * list string)) :
  map fst (role_map_add r e m)
  = if existsb (String.eqb r) (map fst m) then map fst m
    else (map fst m ++ [r])%list.
Proof.
  induction m as [|[k es] m IH]; simpl; [reflexivity|].
  rewrite (String.eqb_sym r k).
  destruct (String.eqb k r); simpl; [reflexivity|].
  rewrite IH. destruct (existsb _ _); reflexivity.
Qed.

Lemma roles_seen_same_set (l : list User) :
  forall s1 s2, (forall x, In x s1 <-> In x s2) ->
                roles_seen s1 l = roles_seen s2 l.
Proof.
  induction l as [|u l IH]; intros s1 s2 H; simpl; [reflexivity|].
  assert (existsb (String.eqb (role u)) s1 = existsb (String.eqb (role u)) s2)
    as Hex.
  { apply eq_true_iff_eq. rewrite !existsb_exists.
    split; intros [x [Hx Hr]]; exists x; split; auto; now apply H. }
  rewrite Hex. destruct (existsb _ s2).
  - now apply IH.
  - f_equal. apply IH. intros x. simpl. now rewrite H.
Qed.

Lemma role_map_fold (l : list User) :
  forall m,
    let m' := fold_left (fun m u => let '(_, e, r) := u in role_map_add r e m)
                        (map (fun u => (uid u, email u, role u)) l) m in
    (forall r, lookup_role r m'
               = (lookup_role r m ++ emails_with_role r l)%list)
    /\ map fst m' = (map fst m ++ roles_seen (map fst m) l)%list.
Proof.
  without_libraries.
  induction l as [|u l IH]; intros m; simpl.
  - split; [intros r|]; now rewrite app_nil_r.
  - destruct (IH (role_map_add (role u) (email u) m)) as [Hl Hk].
    split.
    + intros r. rewrite Hl, lookup_role_add. unfold emails_with_role. simpl.
      destruct (String.eqb (role u) r); simpl; [|reflexivity].
      now rewrite <- app_assoc.
    + rewrite Hk, keys_role_map_add.
      destruct (existsb (String.eqb (role u)) (map fst m)); [reflexivity|].
      rewrite <- app_assoc. simpl. f_equal. f_equal.
      apply roles_seen_same_set. intros x. rewrite in_app_iff. simpl.
      tauto.
Qed.

Lemma roles_seen_fresh (l : list User) :
  forall seen,
    NoDup (roles_seen seen l)
    /\ (forall r, In r (roles_seen seen l)
                  <-> ~ In r seen /\ exists u, In u l /\ role u = r).
Proof.
  without_libraries.
  induction l as [|u l IH]; intros seen; simpl.
  - split; [constructor|]. intros r. split; [intros [] | intros [_ [u [[] _]]]].
  - destruct (existsb (String.eqb (role u)) seen) eqn:Hex.
    + destruct (IH seen) as [Hnd Hin]. split; [exact Hnd|].
      intros r. rewrite Hin. split.
      * intros [Hr [v [Hv Hrv]]]. split; [exact Hr|]. exists v. auto.
      * intros [Hr [v [[<- | Hv] Hrv]]]; split; auto; [|eauto].
        apply existsb_exists in Hex as [x [Hx Hxr]].
        apply String.eqb_eq in Hxr. subst. contradiction.
    + destruct (IH (role u :: seen)) as [Hnd Hin]. split.
      * constructor; [|exact Hnd]. rewrite Hin. simpl. tauto.
      * intros r. simpl. rewrite Hin. simpl. split.
        -- intros [<- | [Hr [v [Hv Hrv]]]].
           ++ split; [|eauto].
              intros Hs.
              assert (existsb (String.eqb (role u)) seen = true) as Habs.
              { apply existsb_exists. exists (role u). split; [exact Hs|].
                apply String.eqb_refl. }
              congruence.
           ++ split; [tauto|eauto].
        -- intros [Hr [v [[<- | Hv] Hrv]]]; [now left|].
           destruct (string_dec (role u) r) as [-> | Hne]; [now left|].
           right. split; [tauto|eauto].
Qed.

(** X14.  [get_family_role_map] groups the users by role: under each role
    it lists the emails of exactly the users with that role, in the order
    of the users table; its keys are the roles that some user has, each
    once, in the order in which the roles first appear. *)
Theorem family_role_map_groups_by_role (db : DB) :
  (forall r, lookup_role r (get_family_role_map db)
             = emails_with_role r (users db))
  /\ map fst (get_family_role_map db) = roles_seen [] (users db)
  /\ NoDup (map fst (get_family_role_map db))
  /\ (forall r, In r (map fst (get_family_role_map db))
                <-> exists u, In u (users db) /\ role u = r).
Proof.
  without_libraries.
  destruct (role_map_fold (users db) []) as [Hl Hk].
  destruct (roles_seen_fresh (users db) []) as [Hnd Hin].
  unfold get_family_role_map, get_all_users.
  split; [exact Hl|]. split; [exact Hk|]. simpl in Hk. rewrite Hk.
  split; [exact Hnd|].
  intros r. rewrite Hin. simpl. tauto.
Qed.

(** ** The Grid view *)

Lemma grid_from_cells (pressed : option Z) (rows : list Photo) :
  Forall (fun p => exists b, b64decode (image_data p) = Returned b
                             /\ st_image b = Returned tt) rows ->
  forall i,
    snd (grid_from i pressed rows) = Returned tt
    /\ List.length (fst (grid_from i pressed rows)) = List.length rows
    /\ forall k p, nth_error rows k = Some p ->
         exists cell,
           nth_error (fst (grid_from i pressed rows)) k = Some cell
           /\ cell_column cell = (i + Z.of_nat k) mod 3
           /\ b64decode (image_data p) = Returned (cell_image cell)
           /\ cell_caption cell = title p
           /\ (cell_details cell <> [] <-> pressed = Some (pid p)).
Proof.
  induction 1 as [|p rows [b [Hb Himg]] _ IH]; intros i.
  - simpl. repeat split. intros [|k] p H; discriminate.
  - simpl. rewrite Hb, Himg.
    destruct (IH (i + 1)) as (Hres & Hlen & Hcells).
    destruct (grid_from (i + 1) pressed rows) as [cells r]. simpl in *.
    split; [exact Hres|]. split; [now rewrite Hlen|].
    intros [|k] q Hq; simpl in Hq.
    + injection Hq as <-. eexists. split; [reflexivity|]. simpl.
      rewrite Z.add_0_r. repeat split; auto.
      * destruct pressed as [j|]; [|now intros H; elim H].
        destruct (Z.eqb_spec j (pid p)) as [-> | Hne];
          [reflexivity | now intros H; elim H].
      * intros ->. rewrite Z.eqb_refl. discriminate.
    + destruct (Hcells k q Hq) as [cell (Hn & Hc & Hi & Hcap & Hd)].
      exists cell. simpl. repeat split; auto; try apply Hd.
      rewrite Hc. f_equal. lia.
Qed.

(** The Grid view stops at the first image that [b64decode] or [st.image]
    refuses, having shown the cells before it. *)
Lemma grid_from_stops (pressed : option Z) (p : Photo) (ex : PyExc)
    (rows : list Photo) (i : Z) :
  (b64decode (image_data p) = Raised ex
   \/ exists b, b64decode (image_data p) = Returned b
                /\ st_image b = Raised ex) ->
  grid_from i pressed (p :: rows) = ([], Raised ex).
Proof.
  intros [Hb | [b [Hb Himg]]]; simpl; rewrite Hb; [reflexivity|].
  now rewrite Himg.
Qed.

(** X15.  When every stored image decodes and [st.image] accepts it, the
    Grid view runs to its end and shows one cell per photo, in order: the
    photo at position [k] goes to column [k mod 3] with its decoded image
    and its title as caption, and details are written for the photo whose
    Details button was pressed and for no other.  It never looks a user
    up, so a photo whose uploader does not exist is shown like any other. *)
Theorem grid_shows_every_photo (pressed : option Z) (rows : list Photo) :
  Forall (fun p => exists b, b64decode (image_data p) = Returned b
                             /\ st_image b = Returned tt) rows ->
  snd (grid pressed rows) = Returned tt
  /\ List.length (fst (grid pressed rows)) = List.length rows
  /\ forall k p, nth_error rows k = Some p ->
       exists cell,
         nth_error (fst (grid pressed rows)) k = Some cell
         /\ cell_column cell = Z.of_nat k mod 3
         /\ b64decode (image_data p) = Returned (cell_image cell)
         /\ cell_caption cell = title p
         /\ (cell_details cell <> [] <-> pressed = Some (pid p)).
Proof.
  intros Hall. unfold grid.
  destruct (grid_from_cells pressed rows Hall 0) as (H1 & H2 & H3).
  split; [exact H1|]. split; [exact H2|]. exact H3.
Qed.

(** ** Finding a saved photo again *)

Lemma string_append_assoc (a b c : string) : (a ++ b) ++ c = a ++ b ++ c.
Proof.
  induction a as [|x a IH]; simpl; [reflexivity|]. now rewrite IH.
Qed.

Lemma string_append_empty (a : string) : a ++ "" = a.
Proof.
  induction a as [|x a IH]; simpl; [reflexivity|]. now rewrite IH.
Qed.

Lemma substring_join (t : string) (parts : list string) :
  In t parts -> substring t (join "," parts).
Proof.
  induction parts as [|x [|y l] IH]; intros Hin.
  - contradiction.
  - destruct Hin as [-> | []]. exists "", "". simpl.
    now rewrite string_append_empty.
  - rewrite join_cons2. destruct Hin as [-> | Hin].
    + exists "", ("," ++ join "," (y :: l)). reflexivity.
    + destruct (IH Hin) as [pre [post Heq]]. rewrite Heq.
      exists (x ++ "," ++ pre), post.
      now rewrite !string_append_assoc.
Qed.

Lemma substring_lower (q s : string) :
  substring q s -> nocase_substring q s.
Proof.
  intros [pre [post ->]]. exists (lower pre), (lower post).
  now rewrite !lower_append.
Qed.

Lemma uint_digits_without_wildcards (d : Decimal.uint) :
  has_char "%" (NilEmpty.string_of_uint d) = false
  /\ has_char "_" (NilEmpty.string_of_uint d) = false.
Proof. induction d; simpl; auto. Qed.

Lemma py_str_without_wildcards (n : Z) :
  has_char "%" (py_str n) = false /\ has_char "_" (py_str n) = false.
Proof.
  unfold py_str.
  destruct (Z.to_int n) as [d|d]; simpl;
    destruct d; simpl; auto using uint_digits_without_wildcards.
Qed.

Lemma search_finds_matching_row (query : string) (db : DB) (p : Photo) :
  has_char "%" query = false -> has_char "_" query = false ->
  In p (photos db) -> query_in_photo query p ->
  In p (search_photos query db).
Proof.
  intros Hp Hu Hin Hq. unfold search_photos.
  apply (Permutation_in _ (Permutation_sym (order_by_perm _))).
  apply filter_In. split; [exact Hin|].
  rewrite (matches_contains query Hp Hu). now apply contains_query_spec.
Qed.

(** X16.  A photo saved with a date of the form YYYY-MM-DD and an
    uploader id in the signed 64-bit range is found again by the decimal
    id of any person in it, and by any of its tags that contains neither
    [%] nor [_]. *)
Theorem saved_photo_found_by_person_and_tag
    (now title0 desc0 date0 loc0 : string) (people : list Z)
    (tags : list string) (uploader : Z) (img : string) (db : DB) :
  iso_date date0 = true ->
  fits_int64 uploader ->
  let row := mkPhoto (photos_seq db + 1) title0 desc0 date0 loc0
                     (people_str_of people) (tags_str_of tags) uploader
                     img now in
  let db' := fst (save_photo now title0 desc0 date0 loc0 people tags
                             uploader img db) in
  (forall i, In i people -> In row (search_photos (py_str i) db'))
  /\ (forall t, In t tags ->
                has_char "%" t = false -> has_char "_" t = false ->
                In row (search_photos t db')).
Proof.
  intros _ _ row db'.
  assert (In row (photos db')) as Hin
      by (subst db' row; simpl; apply in_or_app; right; now left).
  split.
  - intros i Hi. destruct (py_str_without_wildcards i) as [Hp Hu].
    apply search_finds_matching_row; auto.
    unfold query_in_photo. do 4 right. apply substring_lower.
    subst row. simpl. unfold people_str_of.
    destruct people as [|j people]; [contradiction|].
    apply substring_join. now apply in_map.
  - intros t Ht Hp Hu.
    apply search_finds_matching_row; auto.
    unfold query_in_photo. do 3 right. left. apply substring_lower.
    subst row. simpl. unfold tags_str_of.
    destruct tags as [|t0 tags]; [contradiction|].
    now apply substring_join.
Qed.

(** ** Uploading, then looking at the Timeline *)

(** X17.  When the uploaded file decodes and re-encodes, Save is pressed
    and the session user exists, the upload stores one photo that the
    Timeline then renders to its end (provided [b64decode] undoes
    [b64encode]): it shows the re-encoded image, the picked people (when
    they are registered emails) and the session user as uploader. *)
Theorem upload_then_timeline (now : string) (i : Z) (e r : string)
    (f : UploadForm) (image_bytes resized : string) (db : DB) :
  db_ok db ->
  get_user_by_id i db = Some (e, r) ->
  Forall (fun p => exists u, In u (users db) /\ email u = p)
         (f_selected_people f) ->
  f_uploaded_file f = Some image_bytes ->
  resize_image image_bytes = Returned resized ->
  f_save_clicked f = true ->
  (forall b, b64decode (b64encode b) = Returned b) ->
  let run := upload_photo now i f db in
  ended run = Returned tt
  /\ exists row,
       photos (db_after run) = (photos db ++ [row])%list
       /\ title row = f_title f /\ desc row = f_desc f
       /\ date row = f_date f /\ loc row = f_loc f
       /\ uploader_id row = i /\ created_at row = now
       /\ timeline_photo row (db_after run)
          = ((photo_body row (f_selected_people f) resized
              ++ [St_write ("**Uploaded by:** " ++ e ++ " (" ++ r ++ ")")])%list,
             Returned tt).
Proof.
  intros Hok Hget Hsel Hfile Hres Hclick Hb64 run.
  subst run. unfold upload_photo. rewrite Hfile, Hres, Hclick.
  simpl ended. split; [reflexivity|].
  eexists. simpl db_after. simpl photos. split; [reflexivity|].
  simpl. repeat split.
  unfold timeline_photo. simpl.
  change (get_user_by_id i (insert_photo now (f_title f) (f_desc f)
            (f_date f) (f_loc f)
            (people_str_of (people_ids_for (f_selected_people f) db))
            (tags_str_of (tags_list_of (f_tags f))) i
            (base64_image resized) db))
    with (get_user_by_id i db).
  rewrite Hget.
  set (db' := insert_photo _ _ _ _ _ _ _ _ _ _).
  rewrite (people_emails_of_saved _ db').
  assert (existing_emails (people_ids_for (f_selected_people f) db) db'
          = existing_emails (people_ids_for (f_selected_people f) db) db)
    as -> by reflexivity.
  rewrite (existing_emails_of_selected _ db Hok Hsel).
  unfold base64_image. rewrite Hb64. reflexivity.
Qed.

End App.

(** ** Worked examples *)

Lemma init_db_example :
  init_db example_hexdigest "2024-01-01 00:00:00" empty_db
  = Returned example_db.
Proof. reflexivity. Qed.

(** A second [init_db] finds the three demo accounts and adds nothing. *)
Lemma init_db_twice_example :
  init_db example_hexdigest "2024-01-02 00:00:00" example_db
  = Returned example_db.
Proof. reflexivity. Qed.

Lemma example_db_ok : db_ok example_db.
Proof.
  destruct (init_db_ok example_hexdigest "2024-01-01 00:00:00" empty_db
                       db_ok_empty) as [db' [Hinit Hok]].
  rewrite init_db_example in Hinit. now injection Hinit as <-.
Qed.

Lemma example_db_photos_ok (now1 now2 now3 : string) :
  db_ok (three_saves now1 now2 now3 example_db).
Proof.
  unfold three_saves. repeat apply save_photo_ok. apply example_db_ok.
Qed.

(** John logs in with the demo password; a wrong password for Mary and an
    address nobody registered are both turned away in the same way. *)
Lemma authenticate_exactly_on_match_witness :
  db_ok example_db
  /\ authenticate example_hexdigest "john@family.com" "demo123" example_db
     = Some (1, "Dad")
  /\ login example_hexdigest "nobody@family.com" "demo123" example_db
     = login example_hexdigest "mary@family.com" "letmein" example_db.
Proof.
  split; [exact example_db_ok|].
  destruct (authenticate_exactly_on_match example_hexdigest example_db
                                          example_db_ok)
    as (Hsome & _ & Hfail).
  split.
  - apply Hsome.
    exists (mkUser 1 "john@family.com" "sha256:demo123" "Dad"
                   "2024-01-01 00:00:00").
    simpl. repeat split; auto.
  - destruct (Hfail "nobody@family.com" "demo123" "mary@family.com" "letmein"
                    (mkUser 2 "mary@family.com" "sha256:demo123" "Mum"
                            "2024-01-01 00:00:00"))
      as (_ & _ & H1 & H2).
    + intros v [<- | [<- | [<- | []]]]; discriminate.
    + simpl. auto.
    + reflexivity.
    + discriminate.
    + now rewrite H1, H2.
Defined.

Lemma duplicate_sign_up_leaves_write_lock_witness :
  let first := sign_up example_hexdigest "2024-03-01 09:00:00"
                       "tavita@family.com" "pw1" "Son" example_db in
  let second := sign_up example_hexdigest "2024-03-01 09:05:00"
                        "tavita@family.com" "pw2" "Other" (db_after first) in
  shown first = [St_success "Account created! Please login."]
  /\ shown second = [St_error "Email already exists"]
  /\ ended second = Returned tt
  /\ db_after second = db_after first
  /\ write_lock_left second = true
  /\ init_db_on example_hexdigest (write_lock_left second)
                "2024-03-01 09:05:01" (db_after second)
     = Raised OperationalError.
Proof.
  destruct (duplicate_sign_up_leaves_write_lock example_hexdigest
              "2024-03-01 09:00:00" "2024-03-01 09:05:00"
              "2024-03-01 09:05:01"
              "tavita@family.com" "pw1" "Son" "pw2" "Other" example_db)
    as (_ & H1 & _ & _ & _ & H2 & H3 & H4 & H5 & H6); try reflexivity.
  - intros u [<- | [<- | [<- | []]]]; discriminate.
  - repeat split; assumption.
Defined.

(** The same on a seeded account, the way a visitor meets it: signing
    John up again is answered with the message, and the [init_db] of the
    next run raises. *)
Lemma sign_up_of_demo_account_locks :
  let run := sign_up example_hexdigest "2024-03-01 09:00:00"
                     "john@family.com" "guess" "Dad" example_db in
  shown run = [St_error "Email already exists"]
  /\ ended run = Returned tt
  /\ db_after run = example_db
  /\ init_db_on example_hexdigest (write_lock_left run)
                "2024-03-01 09:00:05" (db_after run)
     = Raised OperationalError.
Proof. repeat split. Qed.

(** An email that is not stored is not registered when the password is
    empty: the handler answers "Fill all fields" and stores nothing. *)
Lemma sign_up_refuses_empty_password :
  let run := sign_up example_hexdigest "2024-03-01 09:00:00"
                     "tavita@family.com" "" "Son" example_db in
  (forall u, In u (users example_db) -> email u <> "tavita@family.com")
  /\ shown run = [St_error "Fill all fields"]
  /\ db_after run = example_db
  /\ authenticate example_hexdigest "tavita@family.com" "" (db_after run)
     = None.
Proof.
  split; [|repeat split].
  intros u [<- | [<- | [<- | []]]]; discriminate.
Qed.

Lemma save_photo_then_get_all_photos_witness :
  exists row,
    In row (get_all_photos
              (fst (save_photo "2024-03-01 09:00:00" "Picnic" "Lunch outside"
                               "2021-06-15" "Park" [3; 1] ["food"; "summer"]
                               2 "aW1nMg==" example_db)))
    /\ title row = "Picnic"
    /\ people_ids_of (people_str row) = Returned [3; 1]
    /\ tags_of (tags_str row) = ["food"; "summer"].
Proof.
  destruct (save_photo_then_get_all_photos
              "2024-03-01 09:00:00" "Picnic" "Lunch outside" "2021-06-15"
              "Park" [3; 1] ["food"; "summer"] 2 "aW1nMg==" example_db)
    as [row (Hin & Ht & _ & _ & _ & Hp & Htags)].
  - reflexivity.
  - unfold fits_int64. lia.
  - repeat constructor.
  - discriminate.
  - exists row. repeat split; assumption.
Defined.

(** C1, as stated, fails: a tag that contains a comma comes back as two
    tags, and the single empty tag comes back as no tag at all. *)
Lemma save_photo_loses_some_tags :
  (forall row,
      In row (get_all_photos
                (fst (save_photo "2024-03-01 09:00:00" "Picnic" "Lunch outside"
                                 "2021-06-15" "Park" [3] ["Apia, Samoa"]
                                 2 "aW1nMg==" example_db))) ->
      tags_of (tags_str row) = ["Apia"; " Samoa"]
      /\ ~ same_set (tags_of (tags_str row)) ["Apia, Samoa"])
  /\ (forall row,
         In row (get_all_photos
                   (fst (save_photo "2024-03-01 09:00:00" "Picnic"
                                    "Lunch outside" "2021-06-15" "Park" [3]
                                    [""] 2 "aW1nMg==" example_db))) ->
         tags_of (tags_str row) = []
         /\ ~ same_set (tags_of (tags_str row)) [""]).
Proof.
  split; intros row [<- | []]; (split; [reflexivity|]); intros H.
  - destruct (H "Apia") as [H1 _].
    destruct H1 as [H1 | []]; [simpl; auto | discriminate].
  - destruct (H "") as [_ H1]. simpl in H1. apply H1. now left.
Qed.

Lemma save_photo_persists_and_returns_none_witness :
  let result := save_photo "2024-03-01 09:00:00" "Picnic" "Lunch outside"
                           "2021-06-15" "Park" [3] ["food"] 2 "aW1nMg=="
                           example_db in
  db_ok example_db
  /\ snd result = None
  /\ map pid (photos (fst result)) = [1].
Proof.
  split; [exact example_db_ok|].
  destruct (save_photo_persists_and_returns_none
              "2024-03-01 09:00:00" "Picnic" "Lunch outside" "2021-06-15"
              "Park" [3] ["food"] 2 "aW1nMg==" example_db example_db_ok
              ltac:(unfold fits_int64; lia))
    as (Hret & _ & row & Hrows & Hid & _).
  split; [exact Hret|].
  cbv zeta. rewrite Hrows. simpl. now rewrite Hid.
Defined.

(** C9, as stated, fails: the row is stored under id 1 and the caller
    receives [None]. *)
Lemma save_photo_does_not_return_the_id :
  let result := save_photo "2024-03-01 09:00:00" "Picnic" "Lunch outside"
                           "2021-06-15" "Park" [3] ["food"] 2 "aW1nMg=="
                           example_db in
  map pid (photos (fst result)) = [1]
  /\ snd result = None
  /\ snd result <> Some 1.
Proof. repeat split. discriminate. Qed.

(** Three photos saved a second apart: the two of 2021-06-15 come first,
    the later-saved of them before the other. *)
Lemma photos_listed_by_date_then_creation_witness :
  let db := three_saves "2024-03-01 09:00:00" "2024-03-01 09:00:01"
                        "2024-03-01 09:00:02" example_db in
  map pid (get_all_photos db) = [3; 2; 1]
  /\ map pid (search_photos "L" db) = [3; 2; 1].
Proof.
  intros db.
  destruct (photos_listed_by_date_then_creation db) as (_ & _ & Hex).
  destruct (Hex (mkPhoto 1 "Wedding" "The big day" "2020-01-01" "Apia"
                         "1,2" "family" 1 "aW1nMQ==" "2024-03-01 09:00:00")
                (mkPhoto 2 "Picnic" "Lunch outside" "2021-06-15" "Park"
                         "3" "food,summer" 2 "aW1nMg==" "2024-03-01 09:00:01")
                (mkPhoto 3 "Swim" "After lunch" "2021-06-15" "Piha Beach"
                         "" "" 3 "aW1nMw==" "2024-03-01 09:00:02"))
    as [Hall Hsearch]; try reflexivity.
  split.
  - now rewrite Hall.
  - rewrite (Hsearch "L"); [reflexivity|].
    repeat constructor.
Defined.

(** C4, as stated, fails: when the three photos are saved within the same
    second, the two of 2021-06-15 have equal creation times and are listed
    in the order of their insertion, the earlier one first. *)
Lemma same_second_saves_keep_insertion_order :
  let db := three_saves "2024-03-01 09:00:00" "2024-03-01 09:00:00"
                        "2024-03-01 09:00:00" example_db in
  map date (photos db) = ["2020-01-01"; "2021-06-15"; "2021-06-15"]
  /\ map pid (photos db) = [1; 2; 3]
  /\ map pid (get_all_photos db) = [2; 3; 1]
  /\ map pid (search_photos "L" db) = [2; 3; 1]
  /\ map pid (get_all_photos db) <> [3; 2; 1].
Proof. repeat split. discriminate. Qed.

(** Only the third photo has "beach" in a searched column (its location
    "Piha Beach"): the search returns that photo alone. *)
Lemma search_photos_finds_substrings_witness :
  let db := three_saves "2024-03-01 09:00:00" "2024-03-01 09:00:01"
                        "2024-03-01 09:00:02" example_db in
  map pid (search_photos "beach" db) = [3].
Proof.
  intros db.
  destruct (search_photos_finds_substrings "beach" db eq_refl eq_refl)
    as (_ & _ & Hone).
  rewrite (Hone (mkPhoto 3 "Swim" "After lunch" "2021-06-15" "Piha Beach"
                         "" "" 3 "aW1nMw==" "2024-03-01 09:00:02")).
  - reflexivity.
  - repeat constructor; simpl.
    + intros [H | [H | []]]; discriminate.
    + intros [H | []]; discriminate.
    + intros [].
  - simpl. auto.
  - apply contains_query_spec. reflexivity.
  - intros p' [<- | [<- | [<- | []]]] H; try reflexivity;
      apply contains_query_spec in H; discriminate.
Defined.

Lemma substring_nocase (q s : string) :
  substring q s -> nocase_substring q s.
Proof.
  intros [pre [post ->]]. exists (lower pre), (lower post).
  assert (forall a b, lower (a ++ b) = lower a ++ lower b) as Happ.
  { induction a as [|c a IH]; intros b; simpl; [reflexivity|].
    now rewrite IH. }
  now rewrite !Happ.
Qed.

(** C5, as stated, fails: [_] in the query stands for any character, so
    the query [a_c] returns a photo titled "abc" although [a_c] occurs in
    none of its columns, with or without regard to case. *)
Lemma search_photos_underscore_is_a_wildcard :
  let p := mkPhoto 1 "abc" "" "2021-06-15" "" "" "" 1 "aW1nMQ=="
                   "2024-03-01 09:00:00" in
  let db := fst (save_photo "2024-03-01 09:00:00" "abc" "" "2021-06-15" ""
                            [] [] 1 "aW1nMQ==" example_db) in
  search_photos "a_c" db = [p]
  /\ ~ query_in_photo "a_c" p
  /\ ~ (substring "a_c" (title p) \/ substring "a_c" (desc p)
        \/ substring "a_c" (loc p) \/ substring "a_c" (tags_str p)
        \/ substring "a_c" (people_str p)).
Proof.
  intros p db.
  assert (~ query_in_photo "a_c" p) as Hno.
  { intros H. apply contains_query_spec in H. discriminate. }
  split; [reflexivity|]. split; [exact Hno|].
  intros H. apply Hno. unfold query_in_photo.
  destruct H as [H | [H | [H | [H | H]]]];
    apply substring_nocase in H; auto 6.
Qed.

(** The ids 1 and 2 have users, 99 has none: it is left out. *)
Lemma missing_people_are_dropped_witness :
  fits_int64 99
  /\ get_user_by_id 99 example_db = None
  /\ people_emails_of (people_str_of [1; 99; 2]) example_db
     = Returned ["john@family.com"; "mary@family.com"]
  /\ people_emails_of (people_str_of [1; 99; 2]) example_db
     = people_emails_of (people_str_of [1; 2]) example_db.
Proof.
  assert (forall n, -2 ^ 63 <= n < 2 ^ 63 -> fits_int64 n) as Hfits
      by (intros n H; exact H).
  destruct (missing_people_are_dropped example_db)
    as (Hnone & Hloop & _ & Hdrop).
  assert (get_user_by_id 99 example_db = None) as H99.
  { apply Hnone; [apply Hfits; lia|].
    intros u [<- | [<- | [<- | []]]]; discriminate. }
  split; [apply Hfits; lia|]. split; [exact H99|]. split.
  - rewrite Hloop; [reflexivity|].
    repeat constructor; apply Hfits; lia.
  - apply (Hdrop [1] 99 [2]); [|exact H99].
    repeat constructor; apply Hfits; lia.
Defined.

(** A photo whose uploader 99 does not exist: its turn of the loop raises
    although its people loop returns; with uploader 1 the page is
    complete. *)
Lemma missing_uploader_fails_rendering_witness :
  let orphan := mkPhoto 1 "Wedding" "The big day" "2020-01-01" "Apia"
                        "1,99,2" "family" 99 "aW1nMQ=="
                        "2024-03-01 09:00:00" in
  let db := three_saves "2024-03-01 09:00:00" "2024-03-01 09:00:01"
                        "2024-03-01 09:00:02" example_db in
  get_user_by_id 99 example_db = None
  /\ people_emails_of (people_str orphan) example_db
     = Returned ["john@family.com"; "mary@family.com"]
  /\ snd (timeline_photo example_b64decode orphan example_db)
     <> Returned tt
  /\ (exists out ex,
        timeline_photo example_b64decode orphan example_db
        = (out, Raised ex))
  /\ snd (timeline_view example_b64decode "" db) = Returned tt
  /\ Forall (fun p => exists e r,
                 get_user_by_id (uploader_id p) db = Some (e, r))
            (get_all_photos db).
Proof.
  intros orphan db.
  destruct (missing_uploader_fails_rendering example_b64decode example_db)
    as (Hfails & Hloop & _ & _).
  destruct (missing_uploader_fails_rendering example_b64decode db)
    as (_ & _ & _ & Hview).
  assert (get_user_by_id 99 example_db = None) as H99 by reflexivity.
  destruct (Hloop orphan [1; 99; 2] H99 eq_refl) as [Hpeople Hnot].
  { repeat constructor; unfold fits_int64; lia. }
  split; [exact H99|]. split; [exact Hpeople|]. split; [exact Hnot|].
  split.
  - destruct (Hfails orphan H99) as [out [ex [Hraise _]]]. eauto.
  - split; [reflexivity|].
    exact (Hview "" (fst (timeline_view example_b64decode "" db)) eq_refl).
Defined.

(** A text file renamed to [.jpg]: [Image.open] raises and the exception
    leaves the handler.  A picture JPEG cannot hold: [save] raises and
    the exception leaves the handler as well. *)
Lemma failed_resize_leaves_upload_uncaught_witness :
  let f := mkUploadForm "Picnic" "Lunch outside" "2021-06-15" "Park"
                        ["mary@family.com"] "food, summer"
                        (Some "not an image") false true in
  let g := mkUploadForm "Picnic" "Lunch outside" "2021-06-15" "Park"
                        ["mary@family.com"] "food, summer"
                        (Some "JPEG, with transparency") false true in
  let run := upload_photo (Z * Z) example_Image_open example_thumbnail
                          example_save_JPEG example_b64encode
                          "2024-03-01 09:00:00" 1 f example_db in
  let run' := upload_photo (Z * Z) example_Image_open example_thumbnail
                           example_save_JPEG_refuses example_b64encode
                           "2024-03-01 09:00:00" 1 g example_db in
  (ended run = Raised UnidentifiedImageError
   /\ db_after run = example_db)
  /\ (ended run' = Raised OSError
      /\ db_after run' = example_db).
Proof.
  intros f g run run'.
  destruct (failed_resize_leaves_upload_uncaught (Z * Z) example_Image_open
              example_thumbnail example_save_JPEG example_b64encode
              "2024-03-01 09:00:00" 1 f example_db "not an image"
              UnidentifiedImageError eq_refl eq_refl)
    as (Hended & Hdb & _).
  destruct (failed_resize_leaves_upload_uncaught (Z * Z) example_Image_open
              example_thumbnail example_save_JPEG_refuses example_b64encode
              "2024-03-01 09:00:00" 1 g example_db "JPEG, with transparency"
              OSError eq_refl eq_refl)
    as (Hended' & Hdb' & _).
  split; split; assumption.
Defined.

(** 2000 x 1000 is brought down to 800 x 400, 400 x 300 is left alone,
    and with a [thumbnail] that sizes its result in this way the image
    [resize_image] re-encodes for a 1600 x 1200 upload is 800 x 600. *)
Lemma resize_image_size_within_800_witness :
  thumbnail_size (2000, 1000) max_size = (800, 400)
  /\ thumbnail_size (400, 300) max_size = (400, 300)
  /\ thumbnail_size (1600, 1200) max_size = (800, 600)
  /\ (let s := thumbnail_size (1000, 3) max_size in
      0 < snd s <= 800 /\ fst s <= 1000 /\ snd s <= 3)
  /\ resize_image (Z * Z) example_Image_open example_thumbnail_fit
                  example_save_JPEG "JPEG..."
     = example_save_JPEG (800, 600).
Proof.
  destruct (resize_image_size_within_800 (Z * Z) example_Image_open
              example_thumbnail_fit example_save_JPEG (fun img => img))
    as (Hfit & H1 & H2 & Hlink).
  split; [exact H1|]. split; [exact H2|]. split; [reflexivity|]. split.
  - destruct (Hfit 1000 3 ltac:(lia) ltac:(lia)) as (_ & Hh & Hw & Hs & _).
    cbv zeta. repeat split; lia.
  - destruct (Hlink ltac:(intros img box small [= <-]; reflexivity)
                    "JPEG..." (1600, 1200) (800, 600) eq_refl
                    ltac:(simpl; lia) ltac:(simpl; lia) eq_refl)
      as (Hres & _).
    exact Hres.
Defined.

(** The same form with bytes that decode is saved, with the tags stripped
    and the chosen person's id. *)
Lemma upload_photo_example :
  let f := mkUploadForm "Picnic" "Lunch outside" "2021-06-15" "Park"
                        ["mary@family.com"] "food, summer"
                        (Some "JPEG...") false true in
  let run := upload_photo (Z * Z) example_Image_open example_thumbnail
                          example_save_JPEG example_b64encode
                          "2024-03-01 09:00:00" 1 f example_db in
  ended run = Returned tt
  /\ shown run = [St_success "Photo saved!"]
  /\ photos (db_after run)
     = [mkPhoto 1 "Picnic" "Lunch outside" "2021-06-15" "Park" "2"
                "food,summer" 1 "JPEG" "2024-03-01 09:00:00"].
Proof. repeat split. Qed.

(** C8, as stated, fails: for bytes that do not decode, the handler ends
    with the exception uncaught and has shown no error message. *)
Lemma undecodable_upload_is_not_reported :
  let f := mkUploadForm "Swim" "After lunch" "2021-06-15" "Piha Beach"
                        [] "" (Some "GIF89a, cut short") true false in
  let run := upload_photo (Z * Z) example_Image_open example_thumbnail
                          example_save_JPEG example_b64encode
                          "2024-03-01 09:00:00" 3 f example_db in
  ended run = Raised UnidentifiedImageError
  /\ ended run <> Returned tt
  /\ shown run = [St_warning collage_warning]
  /\ ~ (exists msg, In (St_error msg) (shown run)).
Proof.
  repeat split; try discriminate.
  intros [msg [H | []]]. discriminate.
Qed.

(** ** Worked examples for the further properties *)


Lemma init_db_idempotent_witness :
  init_db example_hexdigest "2024-01-01 00:00:00" empty_db
  = Returned example_db
  /\ init_db example_hexdigest "2024-06-30 12:00:00" example_db
     = Returned example_db.
Proof.
  split; [reflexivity|].
  exact (init_db_idempotent example_hexdigest "2024-01-01 00:00:00"
           "2024-06-30 12:00:00" empty_db example_db eq_refl).
Defined.

Lemma demo_account_can_log_in_witness :
  exists i,
    authenticate example_hexdigest "mary@family.com" "demo123" example_db
    = Some (i, "Mum")
    /\ get_user_by_id i example_db = Some ("mary@family.com", "Mum").
Proof.
  apply (demo_account_can_log_in example_hexdigest "2024-01-01 00:00:00"
           "mary@family.com" "demo123" "Mum" empty_db example_db).
  - exact db_ok_empty.
  - simpl. auto.
  - intros u [].
  - reflexivity.
Defined.

Lemma sign_up_then_login_witness :
  let db' := db_after (sign_up example_hexdigest "2024-03-01 09:00:00"
                               "tavita@family.com" "pw1" "Son" example_db) in
  login example_hexdigest "tavita@family.com" "pw1" db'
  = (Some (4, "tavita@family.com", "Son"), [])
  /\ get_user_by_id 4 db' = Some ("tavita@family.com", "Son").
Proof.
  destruct (sign_up_then_login example_hexdigest "2024-03-01 09:00:00"
              "tavita@family.com" "pw1" "Son" example_db example_db_ok
              eq_refl eq_refl eq_refl)
    as (_ & Hlogin & Hget).
  - intros u [<- | [<- | [<- | []]]]; discriminate.
  - split; assumption.
Defined.

Lemma sign_up_keeps_other_logins_witness :
  authenticate example_hexdigest "john@family.com" "demo123"
    (db_after (sign_up example_hexdigest "2024-03-01 09:00:00"
                       "tavita@family.com" "pw1" "Son" example_db))
  = Some (1, "Dad").
Proof.
  rewrite (sign_up_keeps_other_logins example_hexdigest).
  - reflexivity.
  - discriminate.
Defined.

Lemma search_photos_ignores_case_witness :
  let db := three_saves "2024-03-01 09:00:00" "2024-03-01 09:00:01"
                        "2024-03-01 09:00:02" example_db in
  search_photos "beach" db = search_photos "BeaCH" db
  /\ forall p q,
       In p (photos db) ->
       q = mkPhoto (pid p) (title p) (desc p) (date p) "PIHA BEACH"
                   (people_str p) (tags_str p) (uploader_id p)
                   (image_data p) (created_at p) ->
       loc p = "Piha Beach" ->
       matches "%BeaCH%" p = matches "%BeaCH%" q.
Proof.
  intros db.
  destruct (search_photos_ignores_case "BeaCH" db) as [Hq Hrow].
  split; [exact Hq|].
  intros p q _ -> Hloc. apply Hrow; simpl; try reflexivity.
  now rewrite Hloc.
Defined.

Lemma newest_date_is_listed_first_witness :
  let db := three_saves "2024-03-01 09:00:00" "2024-03-01 09:00:01"
                        "2024-03-01 09:00:02" example_db in
  exists rest,
    get_all_photos (fst (save_photo "2024-03-02 08:00:00" "Hike" "Up the hill"
                                    "2022-01-01" "Vaea" [2] ["walk"] 2
                                    "aW1nNA==" db))
    = mkPhoto 4 "Hike" "Up the hill" "2022-01-01" "Vaea" "2" "walk" 2
              "aW1nNA==" "2024-03-02 08:00:00" :: rest
    /\ Permutation rest (photos db).
Proof.
  intros db.
  apply (newest_date_is_listed_first "2024-03-02 08:00:00" "Hike"
           "Up the hill" "2022-01-01" "Vaea" [2] ["walk"] 2 "aW1nNA==" db).
  - reflexivity.
  - unfold fits_int64. lia.
  - repeat constructor.
Defined.

Lemma form_tags_roundtrip_witness :
  tags_list_of " food, summer " = ["food"; "summer"]
  /\ tags_of (tags_str_of (tags_list_of " food, summer "))
     = ["food"; "summer"]
  /\ tags_list_of "  " = [""]
  /\ tags_of (tags_str_of (tags_list_of "  ")) = [].
Proof.
  destruct (form_tags_roundtrip " food, summer ") as (_ & Hback & _).
  destruct (form_tags_roundtrip "  ") as (_ & _ & Hblank).
  split; [reflexivity|]. split; [|split; [reflexivity|]].
  - rewrite Hback; [reflexivity | discriminate].
  - apply Hblank. reflexivity.
Defined.

Lemma form_people_roundtrip_witness :
  people_ids_for ["mary@family.com"; "john@family.com"] example_db = [2; 1]
  /\ people_emails_of (people_str_of [2; 1]) example_db
     = Returned ["mary@family.com"; "john@family.com"].
Proof.
  split; [reflexivity|].
  destruct (form_people_roundtrip ["mary@family.com"; "john@family.com"]
              example_db example_db_ok)
    as (_ & Hline & _).
  - constructor; [|constructor; [|constructor]].
    + eexists. split; [right; left; reflexivity | reflexivity].
    + eexists. split; [left; reflexivity | reflexivity].
  - exact Hline.
Defined.

(** John logs in on a fresh installation and uploads a photo of Mary: the
    state is reachable, so the Timeline renders. *)
Lemma reachable_states_render_witness :
  let run := script_run example_hexdigest (Z * Z) example_Image_open
                        example_thumbnail example_save_JPEG
                        example_b64encode in
  let st1 := fst (run "2024-01-01 00:00:00"
                      (PressLogin "john@family.com" "demo123") None
                      (mkAppState empty_db None)) in
  let st2 := fst (run "2024-03-01 09:00:00" NoButton
                      (Some (mkUploadForm "Picnic" "Lunch outside"
                                          "2021-06-15" "Park"
                                          ["mary@family.com"] "food, summer"
                                          (Some "JPEG...") false true))
                      st1) in
  session_user st2 = Some (1, "john@family.com", "Dad")
  /\ map pid (photos (app_db st2)) = [1]
  /\ snd (timeline_view example_b64decode "" (app_db st2)) = Returned tt
  /\ snd (timeline_view example_b64decode "park" (app_db st2)) = Returned tt.
Proof.
  intros run st1 st2.
  assert (reachable example_hexdigest (Z * Z) example_Image_open
                    example_thumbnail example_save_JPEG example_b64encode
                    st2) as Hreach.
  { subst st2 st1 run. apply reachable_run. apply reachable_run.
    apply reachable_start. }
  destruct (reachable_states_render example_hexdigest (Z * Z)
              example_Image_open example_thumbnail example_save_JPEG
              example_b64encode example_b64decode st2 Hreach)
    as [_ Hrender].
  split; [reflexivity|]. split; [reflexivity|].
  split; apply Hrender; reflexivity.
Defined.

Lemma dangling_uploader_breaks_timeline_witness :
  get_user_by_id 99 example_db = None
  /\ exists ex,
       snd (timeline_view example_b64decode ""
              (fst (save_photo "2024-03-01 09:00:00" "Picnic" "Lunch outside"
                               "2021-06-15" "Park" [3] ["food"] 99
                               "aW1nMg==" example_db)))
       = Raised ex.
Proof.
  split; [reflexivity|].
  apply (dangling_uploader_breaks_timeline example_b64decode).
  - reflexivity.
  - unfold fits_int64. lia.
  - reflexivity.
Defined.

Lemma grid_shows_every_photo_witness :
  let rows := get_all_photos
                (three_saves "2024-03-01 09:00:00" "2024-03-01 09:00:01"
                             "2024-03-01 09:00:02" example_db) in
  snd (grid example_b64decode example_st_image (Some 2) rows) = Returned tt
  /\ map cell_column
         (fst (grid example_b64decode example_st_image (Some 2) rows))
     = [0; 1; 2]
  /\ map cell_caption
         (fst (grid example_b64decode example_st_image (Some 2) rows))
     = ["Swim"; "Picnic"; "Wedding"].
Proof.
  intros rows.
  destruct (grid_shows_every_photo example_b64decode example_st_image
              (Some 2) rows)
    as (Hres & _ & _).
  - subst rows. repeat constructor; eexists; split; reflexivity.
  - split; [exact Hres|]. split; reflexivity.
Defined.

Lemma saved_photo_found_by_person_and_tag_witness :
  let row := mkPhoto 1 "Picnic" "Lunch outside" "2021-06-15" "Park" "3,1"
                     "food,summer" 2 "aW1nMg==" "2024-03-01 09:00:00" in
  let db' := fst (save_photo "2024-03-01 09:00:00" "Picnic" "Lunch outside"
                             "2021-06-15" "Park" [3; 1] ["food"; "summer"]
                             2 "aW1nMg==" example_db) in
  In row (search_photos "3" db') /\ In row (search_photos "summer" db').
Proof.
  intros row db'.
  destruct (saved_photo_found_by_person_and_tag "2024-03-01 09:00:00"
              "Picnic" "Lunch outside" "2021-06-15" "Park" [3; 1]
              ["food"; "summer"] 2 "aW1nMg==" example_db eq_refl
              ltac:(unfold fits_int64; lia))
    as [Hperson Htag].
  split.
  - exact (Hperson 3 (or_introl eq_refl)).
  - exact (Htag "summer" (or_intror (or_introl eq_refl)) eq_refl eq_refl).
Defined.

Lemma upload_then_timeline_witness :
  let f := mkUploadForm "Picnic" "Lunch outside" "2021-06-15" "Park"
                        ["mary@family.com"] "food, summer"
                        (Some "JPEG...") false true in
  let run := upload_photo (Z * Z) example_Image_open example_thumbnail
                          example_save_JPEG example_b64encode
                          "2024-03-01 09:00:00" 1 f example_db in
  ended run = Returned tt
  /\ exists row,
       photos (db_after run) = [row]
       /\ snd (timeline_photo example_b64decode row (db_after run))
          = Returned tt
       /\ In (St_write "**People:** mary@family.com")
             (fst (timeline_photo example_b64decode row (db_after run)))
       /\ In (St_write "**Uploaded by:** john@family.com (Dad)")
             (fst (timeline_photo example_b64decode row (db_after run))).
Proof.
  intros f run.
  destruct (upload_then_timeline (Z * Z) example_Image_open example_thumbnail
              example_save_JPEG example_b64encode example_b64decode
              "2024-03-01 09:00:00" 1 "john@family.com" "Dad" f "JPEG..."
              "JPEG" example_db example_db_ok eq_refl)
    as [Hended [row (Hrows & _ & _ & _ & _ & _ & _ & Hshow)]];
    try reflexivity.
  - constructor; [|constructor].
    eexists. split; [right; left; reflexivity | reflexivity].
  - split; [exact Hended|]. exists row. split; [exact Hrows|].
    fold run in Hshow. rewrite Hshow. simpl.
    split; [reflexivity|]. split.
    + do 4 right. left. reflexivity.
    + do 6 right. left. reflexivity.
Defined.
